(** * Verification of storm-lua-minify: printer, identifier minifier,
    module resolver and command line driver.

    Shallow embedding of the TypeScript sources:
    - [src/unnamed/part_003] : the printer class [Minifier] (ast2lua):
      [isNeedSeparator], [isKeyword], [generateZeroes],
      [generateIdentifier], [formatExpression], [formatStatement];
    - [src/unnamed/part_000] : the bundling [Minifier] (parse, parseModule);
    - [src/unnamed/part_001] : the command line loop over input paths.

    JS strings are modelled as [string] (one [ascii] per UTF-16 unit,
    which is exact for the ASCII texts involved), a JS [Map<string,string>]
    as [gmap string string], a JS [Set<string>] as [gset string], and a
    JS [Map] whose iteration order matters as an association list. *)

From Stdlib Require Import Ascii String ZArith List Bool Lia.
From stdpp Require Import base gmap sets strings.

Open Scope string_scope.

(* ================================================================== *)
(** ** JS string helpers *)

Definition str_app (a b : string) : string := String.append a b.
Infix "+++" := str_app (right associativity, at level 60).

(** [s.slice(-1)] *)
Definition slice_last (s : string) : string :=
  match String.length s with
  | O => ""
  | S n => substring n 1 s
  end.

(** [s.slice(-2, -1)] *)
Definition slice_second_last (s : string) : string :=
  match String.length s with
  | S (S n) => substring n 1 s
  | _ => ""
  end.

(** [s.charAt(i)] *)
Definition charAt (s : string) (i : nat) : string := substring i 1 s.

(** [s.includes(t)] *)
Fixpoint includes (s t : string) : bool :=
  if String.prefix t s then true
  else match s with
       | EmptyString => false
       | String _ s' => includes s' t
       end.

Definition in_range (lo hi : ascii) (c : ascii) : bool :=
  (nat_of_ascii lo <=? nat_of_ascii c)%nat && (nat_of_ascii c <=? nat_of_ascii hi)%nat.

(** Character classes of the regular expressions of [isNeedSeparator]. *)
Definition cls_alpha_underscore (c : ascii) : bool :=
  in_range "a" "z" c || in_range "A" "Z" c || Ascii.eqb c "_".
Definition cls_alnum_underscore (c : ascii) : bool :=
  in_range "a" "z" c || in_range "A" "Z" c || in_range "0" "9" c || Ascii.eqb c "_".
Definition cls_digit (c : ascii) : bool := in_range "0" "9" c.

(** [/[...]/.test(s)]: some character of [s] belongs to the class. *)
Fixpoint regex_test (cls : ascii -> bool) (s : string) : bool :=
  match s with
  | EmptyString => false
  | String c s' => cls c || regex_test cls s'
  end.

(* ================================================================== *)
(** ** Separator resolver ([isNeedSeparator], part_003 l.159-209) *)

Definition isNeedSeparator (a b : string) : bool :=
  let lastCharA := slice_last a in
  let firstCharB := charAt b 0 in
  if String.eqb lastCharA "" || String.eqb firstCharB "" then false
  else if regex_test cls_alpha_underscore lastCharA then
    if regex_test cls_alnum_underscore firstCharB then true else false
  else if regex_test cls_digit lastCharA then
    if String.eqb firstCharB "(" ||
       negb (String.eqb firstCharB "." || regex_test cls_alpha_underscore firstCharB)
    then false else true
  else if String.eqb lastCharA firstCharB && String.eqb lastCharA "-" then true
  else
    let secondLastCharA := slice_second_last a in
    if String.eqb lastCharA "." && negb (String.eqb secondLastCharA ".") &&
       regex_test cls_alnum_underscore firstCharB
    then true else false.

(** The separator rule in the words of the specification (4.2): on the
    last character of [a], the one before it, and the first character of [b]. *)
Definition last_char (a : string) : option ascii :=
  String.get (String.length a - 1) a.
Definition char_before_last (a : string) : option ascii :=
  match String.length a with
  | S (S n) => String.get n a
  | _ => None
  end.
Definition first_char (b : string) : option ascii := String.get 0 b.

Definition is_dot (o : option ascii) : bool :=
  match o with Some c => Ascii.eqb c "." | None => false end.

Definition need_separator_rule (a b : string) : bool :=
  match last_char a, first_char b with
  | Some x, Some y =>
      (cls_alpha_underscore x && cls_alnum_underscore y)
      || (cls_digit x && negb (Ascii.eqb y "(")
          && (Ascii.eqb y "." || cls_alpha_underscore y))
      || (Ascii.eqb x "-" && Ascii.eqb y "-")
      || (Ascii.eqb x "." && negb (is_dot (char_before_last a))
          && cls_alnum_underscore y)
  | _, _ => false
  end.

(* ================================================================== *)
(** ** Identifier minifier (part_003 l.36-157, 724-770) *)

Definition IDENTIFIER_PARTS : list string :=
  ["0"; "1"; "2"; "3"; "4"; "5"; "6"; "7"; "8"; "9";
   "a"; "b"; "c"; "d"; "e"; "f"; "g"; "h"; "i"; "j"; "k"; "l"; "m";
   "n"; "o"; "p"; "q"; "r"; "s"; "t"; "u"; "v"; "w"; "x"; "y"; "z";
   "A"; "B"; "C"; "D"; "E"; "F"; "G"; "H"; "I"; "J"; "K"; "L"; "M";
   "N"; "O"; "P"; "Q"; "R"; "S"; "T"; "U"; "V"; "W"; "X"; "Y"; "Z"; "_"].

(** [Array.prototype.indexOf] : position of the first equal element, or -1. *)
Fixpoint indexOf_from (l : list string) (x : string) (i : Z) : Z :=
  match l with
  | [] => (-1)%Z
  | y :: l' => if String.eqb y x then i else indexOf_from l' x (i + 1)
  end.
Definition indexOf (l : list string) (x : string) : Z := indexOf_from l x 0.

(** [IDENTIFIER_PARTS[i]] for an index in range (the only indices used). *)
Definition part_at (i : Z) : string := nth (Z.to_nat i) IDENTIFIER_PARTS "".

(** [generateZeroes] (l.112-131): the doubling loop over the binary digits
    of [length], least significant first. *)
Fixpoint zeroes_loop (length : positive) (zero result : string) : string :=
  match length with
  | xH => result +++ zero
  | xO l => zeroes_loop l (zero +++ zero) result
  | xI l => zeroes_loop l (zero +++ zero) (result +++ zero)
  end.

Definition generateZeroes (length : Z) : string :=
  if (length <? 1)%Z then ""
  else if (length =? 1)%Z then "0"
  else zeroes_loop (Z.to_pos length) "0" "".

(** [length & 1] and [length >>= 1] apply [ToInt32] to [length]: the
    loop of l.121-129 on 32-bit integers, as the source runs it.  [fuel]
    bounds the iterations ([None]: the loop has not ended).  On lengths
    below 2^31 it agrees with [generateZeroes] above. *)
Definition ToInt32 (x : Z) : Z :=
  let m := (x mod 2 ^ 32)%Z in if (2 ^ 31 <=? m)%Z then (m - 2 ^ 32)%Z else m.

Fixpoint zeroes_loop_int32 (fuel : nat) (length : Z) (zero result : string) : option string :=
  match fuel with
  | O => None
  | S fuel' =>
    if (length =? 0)%Z then Some result
    else
      let result' := if (Z.land (ToInt32 length) 1 =? 0)%Z then result else result +++ zero in
      let length' := Z.shiftr (ToInt32 length) 1 in
      let zero' := if (length' =? 0)%Z then zero else zero +++ zero in
      zeroes_loop_int32 fuel' length' zero' result'
  end.

Definition generateZeroes_int32 (fuel : nat) (length : Z) : option string :=
  if (length <? 1)%Z then Some ""
  else if (length =? 1)%Z then Some "0"
  else zeroes_loop_int32 fuel length "0" "".

(** [isKeyword] (l.133-157). *)
Definition isKeyword (id : string) : bool :=
  match String.length id with
  | 2 => String.eqb "do" id || String.eqb "if" id || String.eqb "in" id || String.eqb "or" id
  | 3 => String.eqb "and" id || String.eqb "end" id || String.eqb "for" id
         || String.eqb "nil" id || String.eqb "not" id
  | 4 => String.eqb "else" id || String.eqb "goto" id || String.eqb "then" id
         || String.eqb "true" id
  | 5 => String.eqb "break" id || String.eqb "false" id || String.eqb "local" id
         || String.eqb "until" id || String.eqb "while" id
  | 6 => String.eqb "elseif" id || String.eqb "repeat" id || String.eqb "return" id
  | 8 => String.eqb "function" id
  | _ => false
  end.

(** The rename state seen by one [Minifier] instance of part_003: the
    module-level [identifierMap] and [identifiersInUse] (l.102-103), and
    the instance field [currentIdentifier] (l.724). *)
Record MinState := mkMinState {
  identifierMap : gmap string string;
  identifiersInUse : gset string;
  currentIdentifier : string
}.

Definition set_current (st : MinState) (c : string) : MinState :=
  mkMinState (identifierMap st) (identifiersInUse st) c.
Definition map_set (st : MinState) (k v : string) : MinState :=
  mkMinState (<[k := v]> (identifierMap st)) (identifiersInUse st) (currentIdentifier st).

(** JS truthiness of [identifierMap.get(name)]: defined and non-empty. *)
Definition js_truthy (o : option string) : bool :=
  match o with Some d => negb (String.eqb d "") | None => false end.

(** The [while (position >= 0)] loop of [generateIdentifier]; [p] is
    [position + 1].  [None] when every position holds the last symbol. *)
Fixpoint advance_loop (cur : string) (length p : nat) : option string :=
  match p with
  | O => None
  | S position =>
      let character := charAt cur position in
      let index := indexOf IDENTIFIER_PARTS character in
      if negb (Z.eqb index (Z.of_nat (List.length IDENTIFIER_PARTS) - 1)) then
        Some (substring 0 position cur +++ part_at (index + 1)
              +++ generateZeroes (Z.of_nat length - (Z.of_nat position + 1)))
      else advance_loop cur length position
  end.

(** [generateIdentifier] (l.726-770).  Each recursive call of the source
    consumes one unit of [fuel] (the JS call depth); [None] only when the
    fuel runs out.  The result is the text of the returned [SourceNode]. *)
Fixpoint generateIdentifier (fuel : nat) (name : string) (st : MinState)
  : option (string * MinState) :=
  match fuel with
  | O => None
  | S fuel' =>
    if String.eqb name "self" then Some ("self", st) else
    let defined := identifierMap st !! name in
    if js_truthy defined then Some (default "" defined, st) else
    let length := String.length (currentIdentifier st) in
    match advance_loop (currentIdentifier st) length length with
    | Some next =>
        let st1 := set_current st next in
        if isKeyword next || bool_decide (next ∈ identifiersInUse st1)
        then generateIdentifier fuel' name st1
        else generateIdentifier fuel' name (map_set st1 name next)
    | None =>
        let next := "a" +++ generateZeroes (Z.of_nat length) in
        let st1 := set_current st next in
        if bool_decide (next ∈ identifiersInUse st1)
        then generateIdentifier fuel' name st1
        else generateIdentifier fuel' name (map_set st1 name next)
    end
  end.

(** A sequence of calls of [generateIdentifier] on one [Minifier]
    instance, in program order, threading the state. *)
Fixpoint generateSequence (fuel : nat) (names : list string) (st : MinState)
  : option (list string * MinState) :=
  match names with
  | [] => Some ([], st)
  | n :: ns =>
      match generateIdentifier fuel n st with
      | Some (r, st1) =>
          match generateSequence fuel ns st1 with
          | Some (rs, st2) => Some (r :: rs, st2)
          | None => None
          end
      | None => None
      end
  end.

(** The module-level rename state of part_003 (l.102-103); it lives as
    long as the JS module, across [Minifier] instances. *)
Record ModuleState := mkModuleState {
  ms_identifierMap : gmap string string;
  ms_identifiersInUse : gset string
}.

Definition module_load_state : ModuleState := mkModuleState ∅ ∅.

(** [new Minifier(fileName, ast)] (l.268-272): the globals of the chunk are
    added to the module-level in-use set; [currentIdentifier] starts at "". *)
Definition minifier_new (ms : ModuleState) (globals : list string) : MinState :=
  mkMinState (ms_identifierMap ms)
    (foldl (fun acc g => {[ g ]} ∪ acc) (ms_identifiersInUse ms) globals) "".

Definition module_state_of (st : MinState) : ModuleState :=
  mkModuleState (identifierMap st) (identifiersInUse st).

(* ================================================================== *)
(** ** Auxiliary definitions used in the proofs *)

(** [n] copies of the character [0]. *)
Fixpoint zeros (n : nat) : string :=
  match n with O => "" | S n' => String "0" (zeros n') end.

(** Position of a character in [IDENTIFIER_PARTS] (-1 when absent). *)
Definition part_index (c : ascii) : Z := indexOf IDENTIFIER_PARTS (String c "").

(** Shortlex rank of a candidate name: base-64 digits [part_index c + 1]
    behind a leading 1, so longer names rank higher. *)
Fixpoint rank_acc (acc : Z) (s : string) : Z :=
  match s with
  | EmptyString => acc
  | String c s' => rank_acc (acc * 64 + part_index c + 1) s'
  end.
Definition rank (s : string) : Z := rank_acc 1 s.

(** The first character, if any, is a letter or underscore of the alphabet
    (index at least 10 in [IDENTIFIER_PARTS]). *)
Definition first_ok (s : string) : Prop :=
  match s with EmptyString => True | String c _ => (10 <= part_index c)%Z end.

(** Every symbol of [IDENTIFIER_PARTS] is a one-character string found
    back at its own index. *)
Definition parts_table_ok : bool :=
  forallb (fun n => match part_at (Z.of_nat n) with
                    | String c EmptyString => Z.eqb (part_index c) (Z.of_nat n)
                    | _ => false
                    end) (seq 0 63).

(** Every value of the rename map is a non-empty string (JS-truthy). *)
Definition map_values_nonempty (st : MinState) : Prop :=
  forall k v, identifierMap st !! k = Some v -> v <> "".

(** Invariant of the rename state inside one run: every assigned name is
    non-empty, starts with a letter or underscore, is no keyword, is not
    in use, and ranks at most the current candidate; assigned names are
    pairwise distinct; the current candidate starts well. *)
Definition gen_inv (st : MinState) : Prop :=
  (forall k v, identifierMap st !! k = Some v ->
     v <> "" /\ first_ok v /\ isKeyword v = false /\
     (v ∉ identifiersInUse st) /\ (rank v <= rank (currentIdentifier st))%Z) /\
  (forall k1 k2 v, identifierMap st !! k1 = Some v ->
     identifierMap st !! k2 = Some v -> k1 = k2) /\
  first_ok (currentIdentifier st).

(** The first character is one of [a-zA-Z_]. *)
Definition starts_with_letter_or_underscore (s : string) : Prop :=
  match s with String c _ => cls_alpha_underscore c = true | EmptyString => False end.

(* ================================================================== *)
(** ** Statement/expression printer (part_003 l.211-720) *)

(** The printer threads the rename state through every call; [None] is an
    exhausted call depth of [generateIdentifier]. *)
Definition PM (A : Type) : Type := MinState -> option (A * MinState).
Definition pm_ret {A : Type} (x : A) : PM A := fun st => Some (x, st).
Definition pm_bind {A B : Type} (m : PM A) (k : A -> PM B) : PM B :=
  fun st => match m st with Some (x, st1) => k x st1 | None => None end.
Notation "x <- m ;; k" := (pm_bind m (fun x => k))
  (at level 100, m at next level, right associativity).

(** [Array.prototype.join(sep)] *)
Fixpoint js_join (sep : string) (l : list string) : string :=
  match l with
  | [] => ""
  | x :: [] => x
  | x :: xs => x +++ sep +++ js_join sep xs
  end.

(** The text of a [SourceNode] whose children are the given texts. *)
Fixpoint str_concat (l : list string) : string :=
  match l with [] => "" | x :: xs => x +++ str_concat xs end.

(** [addWithSeparator(val, adding, separator)] (l.218-233) on texts:
    [wrapArray(adding).map(toString).join()] joins with [","]. *)
Definition addWithSeparator (val : string) (adding : list string) (separator : string) : string :=
  if isNeedSeparator val (js_join "," adding)
  then val +++ separator +++ str_concat adding
  else val +++ str_concat adding.

(** [prependWithSeparator(val, prepending, separator)] (l.235-250). *)
Definition prependWithSeparator (val : string) (prepending : list string) (separator : string) : string :=
  if isNeedSeparator (js_join "," prepending) val
  then str_concat prepending +++ separator +++ val
  else str_concat prepending +++ val.

(** [insertSeparator(a, b)] (l.252-258); the [undefined] it returns is
    filtered out of the children, so it contributes no text. *)
Definition insertSeparator (a b : string) : string :=
  if isNeedSeparator a b then " " else "".

(** [PRECEDENCE] (l.15-34); a missing key reads [undefined] ([None]). *)
Definition PRECEDENCE_table : list (string * Z) :=
  [("or", 1); ("and", 2); ("<", 3); (">", 3); ("<=", 3); (">=", 3); ("~=", 3);
   ("==", 3); ("..", 5); ("+", 6); ("-", 6); ("*", 7); ("/", 7); ("%", 7);
   ("unarynot", 8); ("unary#", 8); ("unary-", 8); ("^", 10)]%Z.

Fixpoint assoc_get (l : list (string * Z)) (k : string) : option Z :=
  match l with
  | [] => None
  | (k', v) :: l' => if String.eqb k k' then Some v else assoc_get l' k
  end.

Definition PRECEDENCE (key : string) : option Z := assoc_get PRECEDENCE_table key.

(** JS [<] and [==] on numbers that may be [undefined], and [==] on
    strings that may be [undefined]. *)
Definition js_lt (a b : option Z) : bool :=
  match a, b with Some x, Some y => Z.ltb x y | _, _ => false end.
Definition js_num_eq (a b : option Z) : bool :=
  match a, b with
  | Some x, Some y => Z.eqb x y
  | None, None => true
  | _, _ => false
  end.
Definition js_str_eq (a b : option string) : bool :=
  match a, b with
  | Some x, Some y => String.eqb x y
  | None, None => true
  | _, _ => false
  end.

(** [ExpressionOptoions] after [{precedence: 0, ...argOptions}]: a call
    without [argOptions] (or without its [precedence] key) reads
    [default_options]; [preserveIdentifiers] is never read. *)
Record ExpressionOptions := mkOptions {
  precedence : option Z;
  direction : option string;
  parent : option string
}.
Definition default_options : ExpressionOptions := mkOptions (Some 0%Z) None None.

(** The expression kinds of luaparse's AST that the printer handles
    (function expressions excepted); a [LogicalExpression] ([and], [or]) is
    printed exactly as a [BinaryExpression] and is one here.  The arrays of
    call arguments and table fields are [ExpressionList] and [FieldList]. *)
Inductive LiteralKind :=
  StringLiteral | NumericLiteral | BooleanLiteral | NilLiteral | VarargLiteral.

Inductive Expression :=
| Identifier (name : string) (isLocal : bool)
| Literal (kind : LiteralKind) (raw : string)
| BinaryExpression (operator : string) (left' right' : Expression)
| UnaryExpression (operator : string) (argument : Expression)
| CallExpression (base : Expression) (arguments : ExpressionList)
| IndexExpression (base index : Expression)
| MemberExpression (base : Expression) (indexer : string) (identifier : Expression)
| TableConstructorExpression (fields : FieldList)
with ExpressionList :=
| ENil
| ECons (e : Expression) (rest : ExpressionList)
with FieldList :=
| FNil
| FCons (field : TableField) (rest : FieldList)
with TableField :=
| TableKey (key value : Expression)
| TableValue (value : Expression)
| TableKeyString (key value : Expression).

(** [formatBase] (l.704-720) around the text [text] of [base]. *)
Definition needsParens (base : Expression) : bool :=
  match base with
  | CallExpression _ _ | BinaryExpression _ _ _ | TableConstructorExpression _
  | Literal StringLiteral _ => true
  | _ => false
  end.

Definition formatBase (base : Expression) (text : string) : string :=
  if needsParens base
  then addWithSeparator (prependWithSeparator text ["("] " ") [")"] " "
  else text.

(** [generateIdentifier] as a printer action. *)
Definition generateIdentifier_pm (fuel : nat) (name : string) : PM string :=
  fun st => generateIdentifier fuel name st.

(** The [comma] of a table field (l.653-654): ["," ] unless the field is the
    last one; for the last one, [","] when the text of its value, printed
    once more, includes ["property"]. *)
Definition field_comma (last : bool) (render_value : PM string) : PM (option string) :=
  if negb last then pm_ret (Some ",")
  else v <- render_value ;; pm_ret (if includes v "property" then Some "," else None).

Definition opt_list (o : option string) : list string :=
  match o with Some s => [s] | None => [] end.

(** [formatExpression] (l.484-700). *)
Fixpoint formatExpression (fuel : nat) (expression : Expression)
  (options : ExpressionOptions) {struct expression} : PM string :=
  match expression with
  | Identifier name isLocal =>
      if isLocal then generateIdentifier_pm fuel name else pm_ret name
  | Literal _ raw => pm_ret raw
  | BinaryExpression operator left' right' =>
      let currentPrecedence := PRECEDENCE operator in
      let associativity := "left" in
      leftHand <- formatExpression fuel left'
                    (mkOptions currentPrecedence (Some "left") (Some operator)) ;;
      rightHand <- formatExpression fuel right'
                    (mkOptions currentPrecedence (Some "right") (Some operator)) ;;
      let parts := leftHand +++ insertSeparator leftHand operator +++ operator
                   +++ insertSeparator operator rightHand +++ rightHand in
      if String.eqb operator "^" || String.eqb operator ".." then
        (* [associativity = "right"]; the [else if] is not evaluated *)
        pm_ret parts
      else if js_lt currentPrecedence (precedence options) ||
              (js_num_eq currentPrecedence (precedence options) &&
               negb (js_str_eq (Some associativity) (direction options)) &&
               negb (js_str_eq (parent options) (Some "+")) &&
               negb (js_str_eq (parent options) (Some "*") &&
                     (String.eqb operator "/" || String.eqb operator "*")))
      then pm_ret ("(" +++ parts +++ ")")
      else pm_ret parts
  | UnaryExpression operator argument =>
      let currentPrecedence := PRECEDENCE ("unary" +++ operator) in
      p2 <- formatExpression fuel argument (mkOptions currentPrecedence None None) ;;
      let result := operator +++ insertSeparator operator p2 +++ p2 in
      if js_lt currentPrecedence (precedence options) &&
         negb (js_str_eq (parent options) (Some "^") &&
               js_str_eq (direction options) (Some "right"))
      then pm_ret ("(" +++ result +++ ")")
      else pm_ret result
  | CallExpression base arguments =>
      args <- formatArguments fuel arguments ;;
      b <- formatExpression fuel base default_options ;;
      pm_ret (formatBase base b +++ "(" +++ js_join "," args +++ ")")
  | IndexExpression base index =>
      b <- formatExpression fuel base default_options ;;
      i <- formatExpression fuel index default_options ;;
      pm_ret (formatBase base b +++ "[" +++ i +++ "]")
  | MemberExpression base indexer identifier =>
      b <- formatExpression fuel base default_options ;;
      i <- formatExpression fuel identifier default_options ;;
      pm_ret (formatBase base b +++ indexer +++ i)
  | TableConstructorExpression fields =>
      fs <- formatFields fuel fields ;;
      pm_ret (addWithSeparator (addWithSeparator "{" fs " ") ["}"] " ")
  end
with formatArguments (fuel : nat) (l : ExpressionList) {struct l} : PM (list string) :=
  match l with
  | ENil => pm_ret []
  | ECons e rest =>
      a <- formatExpression fuel e default_options ;;
      r <- formatArguments fuel rest ;;
      pm_ret (a :: r)
  end
with formatFields (fuel : nat) (fields : FieldList) {struct fields} : PM (list string) :=
  match fields with
  | FNil => pm_ret []
  | FCons field rest =>
      let last := match rest with FNil => true | FCons _ _ => false end in
      p <- formatField fuel field last ;;
      ps <- formatFields fuel rest ;;
      pm_ret (p ++ ps)%list
  end
with formatField (fuel : nat) (field : TableField) (last : bool) {struct field} : PM (list string) :=
  match field with
  | TableKey key value =>
      comma <- field_comma last (formatExpression fuel value default_options) ;;
      k <- formatExpression fuel key default_options ;;
      v <- formatExpression fuel value default_options ;;
      pm_ret [str_concat (["[" +++ k +++ "]"; "="; v] ++ opt_list comma)%list]
  | TableValue value =>
      comma <- field_comma last (formatExpression fuel value default_options) ;;
      v <- formatExpression fuel value default_options ;;
      pm_ret (v :: opt_list comma)
  | TableKeyString key value =>
      comma <- field_comma last (formatExpression fuel value default_options) ;;
      k <- formatExpression fuel key default_options ;;
      v <- formatExpression fuel value default_options ;;
      pm_ret [str_concat ([k; "="; v] ++ opt_list comma)%list]
  end.


(** The statement kinds used here (l.280-330, 347-355); a [LocalStatement]
    and an [AssignmentStatement] list their targets and initialisers. *)
Inductive Statement :=
| LocalStatement (variables init : ExpressionList)
| AssignmentStatement (variables init : ExpressionList)
| CallStatement (expression : Expression)
| ReturnStatement (arguments : ExpressionList)
| BreakStatement.

(** [list.map(x => [f(x), ","]).flat().slice(0, -1)] *)
Fixpoint comma_separated (l : list string) : list string :=
  match l with
  | [] => []
  | x :: [] => [x]
  | x :: xs => x :: "," :: comma_separated xs
  end.

Definition expression_list_nonempty (l : ExpressionList) : bool :=
  match l with ENil => false | ECons _ _ => true end.

(** [formatStatement] (l.280-330, 347-355). *)
Definition formatStatement (fuel : nat) (statement : Statement) : PM string :=
  match statement with
  | AssignmentStatement variables init =>
      vs <- formatArguments fuel variables ;;
      is <- formatArguments fuel init ;;
      let result := str_concat (comma_separated vs) in
      let result := addWithSeparator result ["="] " " in
      pm_ret (addWithSeparator result [str_concat (comma_separated is)] " ")
  | LocalStatement variables init =>
      vs <- formatArguments fuel variables ;;
      let result := "local " +++ str_concat (comma_separated vs) in
      if expression_list_nonempty init then
        is <- formatArguments fuel init ;;
        let result := addWithSeparator result ["="] " " in
        pm_ret (addWithSeparator result [str_concat (comma_separated is)] " ")
      else pm_ret result
  | CallStatement expression => formatExpression fuel expression default_options
  | ReturnStatement arguments =>
      if expression_list_nonempty arguments then
        rs <- formatArguments fuel arguments ;;
        pm_ret (addWithSeparator "return" (comma_separated rs) " ")
      else pm_ret "return"
  | BreakStatement => pm_ret "break"
  end.

(** The JS string ["\n"]. *)
Definition newline : string := String "010" "".

(** [formatStatementList] (l.272-278): statements joined by a newline
    where [isNeedSeparator] asks for one. *)
Fixpoint formatStatementList_from (fuel : nat) (result : string) (body : list Statement) : PM string :=
  match body with
  | [] => pm_ret result
  | statement :: rest =>
      s <- formatStatement fuel statement ;;
      formatStatementList_from fuel (addWithSeparator result [s] newline) rest
  end.
Definition formatStatementList (fuel : nat) (body : list Statement) : PM string :=
  formatStatementList_from fuel "" body.

(** A chunk as luaparse returns it with [scope: true]: the free names of
    its scope report and its statements. *)
Record Chunk := mkChunk {
  globals : list string;
  body : list Statement
}.

(** [new Minifier(fileName, ast).parse()] (l.264-271) on the module-level
    rename state [ms]; returns the text and the module-level state after. *)
Definition Minifier_parse (fuel : nat) (ms : ModuleState) (ast : Chunk)
  : option (string * ModuleState) :=
  match formatStatementList fuel (body ast) (minifier_new ms (globals ast)) with
  | Some (t, st) => Some (t, module_state_of st)
  | None => None
  end.

(** Independent runs in one process, as the command line of part_001
    (l.81-139) makes them, one input file after the other: each run is a
    new [Minifier] on the module-level state the previous run left. *)
Fixpoint Minifier_runs (fuel : nat) (ms : ModuleState) (asts : list Chunk) : option (list string) :=
  match asts with
  | [] => Some []
  | ast :: rest =>
      match Minifier_parse fuel ms ast with
      | Some (t, ms') =>
          match Minifier_runs fuel ms' rest with
          | Some ts => Some (t :: ts)
          | None => None
          end
      | None => None
      end
  end.

(** The parenthesisation rule of 4.5 in the specification's words, with
    the associativity of 4.1 ([^] and [..] right, all others left). *)
Definition operator_associativity (operator : string) : string :=
  if String.eqb operator "^" || String.eqb operator ".." then "right" else "left".

Definition binary_parens_rule (operator : string) (options : ExpressionOptions) : bool :=
  let currentPrecedence := PRECEDENCE operator in
  js_lt currentPrecedence (precedence options) ||
  (js_num_eq currentPrecedence (precedence options) &&
   negb (js_str_eq (Some (operator_associativity operator)) (direction options)) &&
   negb (js_str_eq (parent options) (Some "+")) &&
   negb (js_str_eq (parent options) (Some "*") &&
         (String.eqb operator "/" || String.eqb operator "*"))).

(** The options a binary expression passes to its operands. *)
Definition operand_options (operator side : string) : ExpressionOptions :=
  mkOptions (PRECEDENCE operator) (Some side) (Some operator).

(** The text of a binary expression from the texts of its operands. *)
Definition binary_parts (lt operator rt : string) : string :=
  lt +++ insertSeparator lt operator +++ operator +++ insertSeparator operator rt +++ rt.


Definition map_incl (st st' : MinState) : Prop :=
  forall k v, identifierMap st !! k = Some v -> identifierMap st' !! k = Some v.

(** A printer action keeps every binding of the rename map (and its
    values non-empty), and run again on any state that keeps the bindings
    it left it returns the same text without changing that state. *)
Definition pm_good {A : Type} (m : PM A) : Prop :=
  (forall st x st', map_values_nonempty st -> m st = Some (x, st') ->
     map_values_nonempty st' /\ map_incl st st') /\
  (forall st x st', map_values_nonempty st -> m st = Some (x, st') ->
     forall st'', map_values_nonempty st'' -> map_incl st' st'' -> m st'' = Some (x, st'')).






(** Mutual induction over expressions, argument lists and table fields. *)
Scheme Expression_ind' := Induction for Expression Sort Prop
  with ExpressionList_ind' := Induction for ExpressionList Sort Prop
  with FieldList_ind' := Induction for FieldList Sort Prop
  with TableField_ind' := Induction for TableField Sort Prop.
Combined Scheme Expression_mutind from
  Expression_ind', ExpressionList_ind', FieldList_ind', TableField_ind'.


(* ================================================================== *)
(** ** The bundling [Minifier] (part_000) and the command line (part_001) *)

(** A [SourceNode] of the source-map library: a string leaf, or a node with
    an optional origin (line, column, source file) and its children. *)
#[warnings="-register-all"]
Inductive SourceNode :=
| SNStr (s : string)
| SNode (line column : option nat) (source : option string) (children : list SourceNode).

(** [sn.toString()] *)
Fixpoint sn_toString (n : SourceNode) : string :=
  match n with
  | SNStr s => s
  | SNode _ _ _ cs =>
      (fix go (cs : list SourceNode) : string :=
         match cs with
         | [] => ""
         | c :: cs' => sn_toString c +++ go cs'
         end) cs
  end.

(** [sn.prepend(chunks)]: the chunks become the first children, in order.
    (Every fragment prepended to is a node; the leaf case is total only.) *)
Definition sn_prepend (chunks : list SourceNode) (sn : SourceNode) : SourceNode :=
  match sn with
  | SNode l c src cs => SNode l c src (chunks ++ cs)%list
  | SNStr s => SNode None None None (chunks ++ SNStr s :: [])%list
  end.

(** [sn.add(chunk)] *)
Definition sn_add (chunk : SourceNode) (sn : SourceNode) : SourceNode :=
  match sn with
  | SNode l c src cs => SNode l c src (cs ++ chunk :: [])%list
  | SNStr s => SNode None None None (SNStr s :: chunk :: [])
  end.

(** A luaparse [Comment]: its [raw] text and [loc.start]. *)
Record Comment := mkComment {
  raw : string;
  start_line : option nat;
  start_column : option nat
}.

(** The part of a luaparse [Chunk] the bundler reads: [globals] (absent
    when the ["globals" in ast] test fails) and [comments].  [requires]
    lists, in traversal order, the module names of the [require] calls
    of the chunk. *)
Record LuaAST := mkLuaAST {
  ast_globals : option (list string);
  ast_comments : option (list Comment);
  ast_requires : list string
}.

(** Modelled from the spec: [minifyFile] stands for the body printer
    [MinifyFile(...).parse], which is not in the repository, and returns
    the children of the module's fragment.  The other fields are what the
    bundler gets from libraries: the file system ([existsSync] followed by
    [readFileSync]) and [Parser.parse] ([None] when it throws).  The source
    also hands the bundler itself ([this]) to the printer, whose renaming
    shares state across the modules of a run; that state is left out here,
    so the printer is a function of the path, the AST and the entry flag. *)
Record Host := mkHost {
  readFile : string -> option string;
  luaparse : string -> option LuaAST;
  minifyFile : string -> LuaAST -> bool -> list SourceNode
}.

Definition existsSync (h : Host) (p : string) : bool :=
  match readFile h p with Some _ => true | None => false end.

Record MinifierMode := mkMinifierMode { moduleLikeLua : bool }.

(** [path.parse] on a POSIX path without a trailing separator. *)
Record ParsedPath := mkParsedPath { p_dir : string; p_name : string; p_ext : string }.

Fixpoint last_index_from (c : ascii) (s : string) (i : nat) (acc : option nat) : option nat :=
  match s with
  | EmptyString => acc
  | String d s' => last_index_from c s' (S i) (if Ascii.eqb c d then Some i else acc)
  end.

Definition last_index (c : ascii) (s : string) : option nat := last_index_from c s 0 None.

Definition path_parse (p : string) : ParsedPath :=
  let '(dir, base) :=
    match last_index "/" p with
    | Some i => (substring 0 i p, substring (S i) (String.length p) p)
    | None => ("", p)
    end in
  match last_index "." base with
  | Some (S j) => mkParsedPath dir (substring 0 (S j) base)
                    (substring (S j) (String.length base) base)
  | _ => mkParsedPath dir base ""
  end.

(** [path.format({dir, name, ext})] *)
Definition path_format (dir name ext : string) : string :=
  if String.eqb dir "" then name +++ ext else dir +++ "/" +++ name +++ ext.

(** [path.join(dir, p)] for a relative [p] (no normalisation needed). *)
Definition path_join (dir p : string) : string :=
  if String.eqb dir "" then p else dir +++ "/" +++ p.

(** [moduleName.replaceAll(".", path.sep)] *)
Fixpoint replace_dots (s : string) : string :=
  match s with
  | EmptyString => EmptyString
  | String c s' => String (if Ascii.eqb c "." then "/"%char else c) (replace_dots s')
  end.

(** The read-only fields set by the constructor. *)
Record MinifierConfig := mkMinifierConfig {
  dir : string;
  entryModule : string;
  mode : MinifierMode
}.

Definition minifier_config (entryFilePath : string) (mode : MinifierMode) : MinifierConfig :=
  let pn := path_parse entryFilePath in
  mkMinifierConfig (p_dir pn) (p_name pn) mode.

(** The mutable fields; the maps are association lists in insertion
    order, as JS [Map]s iterate.  [passes] records, in order, every module
    whose parse-and-print pass began (it has no counterpart in the
    source and is only observed by the statements below). *)
Record BundlerState := mkBundlerState {
  bundle_identifiersInUse : list string;
  moduleSourceText : list (string * string);
  moduleAST : list (string * LuaAST);
  moduleSourceNode : list (string * SourceNode);
  passes : list string
}.

Definition minifier_init : BundlerState := mkBundlerState [] [] [] [] [].

Fixpoint assoc_lookup {V : Type} (k : string) (l : list (string * V)) : option V :=
  match l with
  | [] => None
  | (k', v) :: l' => if String.eqb k k' then Some v else assoc_lookup k l'
  end.

(** [map.set(k, v)]: a present key keeps its position. *)
Fixpoint assoc_set {V : Type} (k : string) (v : V) (l : list (string * V)) : list (string * V) :=
  match l with
  | [] => (k, v) :: []
  | (k', v') :: l' => if String.eqb k k' then (k, v) :: l' else (k', v') :: assoc_set k v l'
  end.

Inductive BundleError :=
| NotFound (moduleName : string)   (* [moduleName + " is not found"] *)
| LuaSyntaxError                   (* thrown by [Parser.parse] *)
| StackOverflow.                   (* [RangeError]: the recursion is too deep *)

Definition resolve_path (moduleName : string) : string := replace_dots moduleName +++ ".lua".

Definition module_path (cfg : MinifierConfig) (moduleName : string) : string :=
  path_join (dir cfg) (resolve_path moduleName).

(** Modelled from the spec: in module-like mode the body printer resolves,
    in traversal order, every module the chunk requires (4.6); a plain run
    minifies each file on its own. *)
Definition requested_modules (cfg : MinifierConfig) (ast : LuaAST) : list string :=
  if moduleLikeLua (mode cfg) then ast_requires ast else [].

Definition record_pass (st : BundlerState) (moduleName : string) (gs : list string) : BundlerState :=
  mkBundlerState (bundle_identifiersInUse st ++ gs)%list (moduleSourceText st) (moduleAST st)
    (moduleSourceNode st) (passes st ++ moduleName :: [])%list.

Definition store_module (st : BundlerState) (moduleName code : string) (ast : LuaAST)
    (sourceNode : SourceNode) : BundlerState :=
  mkBundlerState (bundle_identifiersInUse st) (assoc_set moduleName code (moduleSourceText st))
    (assoc_set moduleName ast (moduleAST st)) (assoc_set moduleName sourceNode (moduleSourceNode st))
    (passes st).

(** The calls [MinifyFile] makes to [parseModule] for the required
    modules, one after the other; the first exception ends the pass. *)
Fixpoint require_all
    (resolve : string -> BundlerState -> (BundleError + SourceNode) * BundlerState)
    (names : list string) (s : BundlerState) : (BundleError + unit) * BundlerState :=
  match names with
  | [] => (inr tt, s)
  | n :: names' =>
    match resolve n s with
    | (inl e, s') => (inl e, s')
    | (inr _, s') => require_all resolve names' s'
    end
  end.

(** [parseModule]; an exception leaves the object's fields as they are at
    the throw, so the state is returned in both cases.  [fuel] bounds the
    depth of the recursion. *)
Fixpoint parseModule (h : Host) (cfg : MinifierConfig) (fuel : nat) (moduleName : string)
    (st : BundlerState) : (BundleError + SourceNode) * BundlerState :=
  match fuel with
  | O => (inl StackOverflow, st)
  | S fuel' =>
    let resolvePath := resolve_path moduleName in
    let fullResolvePath := path_join (dir cfg) resolvePath in
    match assoc_lookup moduleName (moduleSourceNode st) with
    | Some res => (inr res, st)
    | None =>
      match readFile h fullResolvePath with
      | None => (inl (NotFound moduleName), st)
      | Some code =>
        match luaparse h code with
        | None => (inl LuaSyntaxError, st)
        | Some ast =>
          match ast_globals ast with
          | None => (inl (NotFound moduleName), st)
          | Some gs =>
            let st1 := record_pass st moduleName gs in
            match require_all (parseModule h cfg fuel') (requested_modules cfg ast) st1 with
            | (inl e, st2) => (inl e, st2)
            | (inr _, st2) =>
              let sourceNode := SNode None None None
                    (minifyFile h resolvePath ast (String.eqb resolvePath (entryModule cfg))) in
              (inr sourceNode, store_module st2 moduleName code ast sourceNode)
            end
          end
        end
      end
    end
  end.

Definition dq : string := String "034" "".

Definition require_header : string :=
  "function require(m,r)package=package or{loaded={}};if package.loaded[m]then return package.loaded[m]end"
  +++ newline.

Definition require_footer : string :=
  "package.loaded[m]=package.loaded[m]or r or true;return package.loaded[m]end" +++ newline.

(** The five chunks of a dispatcher branch (l.55): [if m==] and a double
    quote, the module name [k], a double quote and [then r=(function() ],
    the module's fragment [v], and [ end)()end] with a newline. *)
Definition dispatcher_branch (k : string) (v : SourceNode) : list SourceNode :=
  [SNStr ("if m==" +++ dq); SNStr k; SNStr (dq +++ "then r=(function() "); v;
   SNStr (" end)()end" +++ newline)].

(** [v.raw.includes("--#") || v.raw.includes("[[#")] *)
Definition is_pragma (c : Comment) : bool :=
  includes (raw c) "--#" || includes (raw c) "[[#".

(** [x || null] on a line or column number. *)
Definition js_or_null (o : option nat) : option nat :=
  match o with Some O => None | _ => o end.

Definition comment_node (entry : string) (c : Comment) : SourceNode :=
  SNode (js_or_null (start_line c)) (js_or_null (start_column c)) (Some entry) [SNStr (raw c)].

Definition set_comments (ast : LuaAST) (cs : list Comment) : LuaAST :=
  mkLuaAST (ast_globals ast) (Some cs) (ast_requires ast).

(** [parse()]: the entry module, then (module-like mode) the dispatcher
    prepended around it, then the pragma comments.  [comments.reverse()]
    reverses the stored AST's array in place. *)
Definition bundler_parse (h : Host) (cfg : MinifierConfig) (fuel : nat) (st : BundlerState)
    : (BundleError + SourceNode) * BundlerState :=
  match parseModule h cfg fuel (entryModule cfg) st with
  | (inl e, st') => (inl e, st')
  | (inr sn, st') =>
    let sn1 :=
      if moduleLikeLua (mode cfg) then
        sn_prepend [SNStr require_header]
          (fold_left (fun acc kv =>
              if String.eqb (fst kv) (entryModule cfg) then acc
              else sn_prepend (dispatcher_branch (fst kv) (snd kv)) acc)
            (moduleSourceNode st') (sn_prepend [SNStr require_footer] sn))
      else sn in
    match assoc_lookup (entryModule cfg) (moduleAST st') with
    | Some ast =>
      match ast_comments ast with
      | Some comments =>
        let reversed := rev comments in
        let st'' := mkBundlerState (bundle_identifiersInUse st') (moduleSourceText st')
              (assoc_set (entryModule cfg) (set_comments ast reversed) (moduleAST st'))
              (moduleSourceNode st') (passes st') in
        (inr (fold_left (fun acc c => sn_prepend [comment_node (entryModule cfg) c; SNStr newline] acc)
                (List.filter is_pragma reversed) sn1), st'')
      | None => (inr sn1, st')
      end
    | None => (inr sn1, st')
    end
  end.

(** Effects of the command line program. *)
Inductive CliEffect :=
| Stderr (msg : string)
| WriteFile (path contents : string)
| WriteSourceMap (path : string) (map : SourceNode).   (* [JSON.stringify(sourceAndMap.map)] *)

(** The body of [luaFiles.forEach] for an existing file. *)
Definition cli_file (h : Host) (mode : MinifierMode) (fuel : nat) (fileName : string)
    : BundleError + list CliEffect :=
  let parsedFileName := path_parse fileName in
  match fst (bundler_parse h (minifier_config fileName mode) fuel minifier_init) with
  | inl e => inl e
  | inr map0 =>
    let minFileName := path_format (p_dir parsedFileName) (p_name parsedFileName +++ ".min") ".lua" in
    let mapFileName := path_format (p_dir parsedFileName) (p_name parsedFileName)
                         (p_ext parsedFileName +++ ".map") in
    let map := sn_add (SNStr (newline +++ "--[[" +++ newline +++ "//# sourceMappingURL="
                              +++ mapFileName +++ newline +++ "]]")) map0 in
    inr [WriteFile minFileName (sn_toString map); WriteSourceMap mapFileName map]
  end.

(** [luaFiles.forEach(...)]: nothing catches an exception, which ends the
    process; the result is the effects so far and the uncaught error. *)
Fixpoint cli_main (h : Host) (mode : MinifierMode) (fuel : nat) (luaFiles : list string)
    : list CliEffect * option BundleError :=
  match luaFiles with
  | [] => ([], None)
  | fileName :: rest =>
    if existsSync h fileName then
      match cli_file h mode fuel fileName with
      | inl e => ([], Some e)
      | inr effs => let '(effs', r) := cli_main h mode fuel rest in ((effs ++ effs')%list, r)
      end
    else
      let '(effs', r) := cli_main h mode fuel rest in
      (Stderr ("No such file: " +++ fileName) :: effs', r)
  end.

(** The pieces [parse()] puts before the entry module's body. *)
Definition pragma_pieces (entry : string) (comments : list Comment) : list SourceNode :=
  flat_map (fun c => [comment_node entry c; SNStr newline]) (List.filter is_pragma comments).

Definition dispatcher_pieces (cfg : MinifierConfig) (cache : list (string * SourceNode))
    : list SourceNode :=
  if moduleLikeLua (mode cfg) then
    (SNStr require_header
       :: flat_map (fun kv => dispatcher_branch (fst kv) (snd kv))
            (rev (List.filter (fun kv => negb (String.eqb (fst kv) (entryModule cfg))) cache))
       ++ SNStr require_footer :: [])%list
  else [].

Definition cache_keys (st : BundlerState) : list string := map fst (moduleSourceNode st).

(** Every node of a fragment: the fragment and, recursively, its children. *)
Fixpoint sn_subterms (n : SourceNode) : list SourceNode :=
  n :: match n with
       | SNStr _ => []
       | SNode _ _ _ cs => flat_map sn_subterms cs
       end.

(** The text chunks of a fragment, in order. *)
Fixpoint sn_leaves (n : SourceNode) : list string :=
  match n with
  | SNStr s => [s]
  | SNode _ _ _ cs => flat_map sn_leaves cs
  end.

(** No text chunk of the fragment starts a Lua comment. *)
Definition comment_free (n : SourceNode) : Prop :=
  forall s, In s (sn_leaves n) -> String.prefix "--" s = false.

(** Modelled from the spec: the body printer drops every comment
    (ordinary comments are dropped entirely; the pragma comments are
    put in by [parse()] alone): no chunk it prints starts with [--]. *)
Definition printer_drops_comments (h : Host) : Prop :=
  forall path ast isEntry, Forall comment_free (minifyFile h path ast isEntry).

(** The body of a module's fragment as [parseModule] builds it. *)
Definition module_body (h : Host) (cfg : MinifierConfig) (name : string) (ast : LuaAST) : list SourceNode :=
  minifyFile h (resolve_path name) ast (String.eqb (resolve_path name) (entryModule cfg)).

(** What a successful request for [x] does to the ghost log and the cache. *)
Definition request_ok (rank : string -> nat) (x : string) (s s' : BundlerState) : Prop :=
  exists L, passes s' = (passes s ++ L)%list /\ List.NoDup (passes s') /\ List.NoDup (cache_keys s') /\
    (forall y, In y (cache_keys s) -> In y (cache_keys s')) /\
    (forall y, In y L -> In y (cache_keys s') /\ ~ In y (cache_keys s) /\ rank y <= rank x) /\
    (forall y, In y (cache_keys s') -> In y (cache_keys s) \/ In y L).


(** A host whose files are given by a table: a file's text is its path,
    and parsing the text gives the table's AST. *)
Definition table_host (files : list (string * LuaAST)) : Host :=
  mkHost (fun p => match assoc_lookup p files with Some _ => Some p | None => None end)
    (fun code => assoc_lookup code files)
    (fun resolvePath _ _ => [SNStr ("return " +++ dq +++ resolvePath +++ dq)]).

Definition module_like : MinifierMode := mkMinifierMode true.

(** [main] requires [util] twice and carries a pragma and a plain comment. *)
Definition diamond_files : list (string * LuaAST) :=
  [("main.lua", mkLuaAST (Some []) (Some [mkComment "--#keep: notice" (Some 1) (Some 0);
                                          mkComment "-- remove me" (Some 2) (Some 0)])
                  ["util"; "util"]);
   ("util.lua", mkLuaAST (Some []) (Some []) [])].

(** [main] requires [a], which requires [main]. *)
Definition cycle_files : list (string * LuaAST) :=
  [("main.lua", mkLuaAST (Some []) (Some []) ["a"]);
   ("a.lua", mkLuaAST (Some []) (Some []) ["main"])].

(** [bad.lua] requires a module that does not exist. *)
Definition cli_files : list (string * LuaAST) :=
  [("bad.lua", mkLuaAST (Some []) (Some []) ["nothere"]);
   ("good.lua", mkLuaAST (Some []) (Some []) [])].

(** [bad.lua] exists but does not parse; [good.lua] is an empty chunk. *)
Definition cli_host : Host :=
  mkHost (fun p => if String.eqb p "bad.lua" || String.eqb p "good.lua" then Some p else None)
    (fun code => if String.eqb code "good.lua" then Some (mkLuaAST (Some []) (Some []) []) else None)
    (fun resolvePath _ _ => [SNStr ("return " +++ dq +++ resolvePath +++ dq)]).

Definition plain_mode : MinifierMode := mkMinifierMode false.

(** A rank for [diamond_files]: [util] below everything else. *)
Definition diamond_rank (name : string) : nat := if String.eqb name "util" then 0 else 1.

(** The fragment of a successful run. *)
Definition run_node (r : (BundleError + SourceNode) * BundlerState) : SourceNode :=
  match fst r with inr sn => sn | inl _ => SNStr "" end.


(* ================================================================== *)
(** ** Auxiliary definitions of the further properties *)

(** The reserved words of Lua 5.3 (reference manual, 3.1), as a list to
    compare [isKeyword] with. *)
Definition lua_keywords : list string :=
  ["and"; "break"; "do"; "else"; "elseif"; "end"; "false"; "for"; "function";
   "goto"; "if"; "in"; "local"; "nil"; "not"; "or"; "repeat"; "return";
   "then"; "true"; "until"; "while"].

(** The candidate [generateIdentifier] moves [currentIdentifier] to in one
    call (part_003 l.734-765): the next string of the odometer, or [a]
    followed by zeroes once every position holds the last symbol. *)
Definition next_candidate (cur : string) : string :=
  match advance_loop cur (String.length cur) (String.length cur) with
  | Some next => next
  | None => "a" +++ generateZeroes (Z.of_nat (String.length cur))
  end.



(** The string does not contain the character. *)
Definition char_free (c : ascii) (s : string) : bool :=
  forallb (fun d => negb (Ascii.eqb c d)) (list_ascii_of_string s).

(** One entry file in the directory [src]. *)
Definition cli_lib_files : list (string * LuaAST) :=
  [("src/main.lua", mkLuaAST (Some []) (Some []) [])].

(** An input whose extension is not [.lua]. *)
Definition cli_txt_files : list (string * LuaAST) :=
  [("src/main.txt", mkLuaAST (Some []) (Some []) [])].

(* ================================================================== *)
(** ** The string generator of src/src/ast2lua.ts (third version, l.839-1063)

    The file holds three successive versions of the printer.  The third
    joins texts with [joinSnippet] and prints expressions to strings with
    [generateExpression]; the second (l.293-838) is the printer of
    part_003 modelled above. *)

Module Ast2Lua.

(** [joinSnippet(a, b, separator)] (l.847-896); [None] is an absent
    separator, and a falsy one is replaced by a space. *)
Definition joinSnippet (a b : string) (separator : option string) : string :=
  let separator := match separator with
                   | Some s => if String.eqb s "" then " " else s
                   | None => " "
                   end in
  let lastCharA := slice_last a in
  let firstCharB := charAt b 0 in
  if String.eqb lastCharA "" || String.eqb firstCharB "" then a +++ b
  else if regex_test cls_alpha_underscore lastCharA then
    if regex_test cls_alnum_underscore firstCharB then a +++ separator +++ b else a +++ b
  else if regex_test cls_digit lastCharA then
    if String.eqb firstCharB "(" ||
       negb (String.eqb firstCharB "." || regex_test cls_alpha_underscore firstCharB)
    then a +++ b else a +++ separator +++ b
  else if String.eqb lastCharA firstCharB && String.eqb lastCharA "-" then a +++ separator +++ b
  else
    let secondLastCharA := slice_second_last a in
    if String.eqb lastCharA "." && negb (String.eqb secondLastCharA ".") &&
       regex_test cls_alnum_underscore firstCharB
    then a +++ separator +++ b else a +++ b.

(** [joinLua(code, separator)] (l.843-845) on the texts of the snippets;
    [reduce] without an initial value throws on an empty array ([None]). *)
Definition joinLua (code : list string) (separator : option string) : option string :=
  match code with
  | [] => None
  | c :: cs => Some (fold_left (fun a b => joinSnippet a b separator) cs c)
  end.

Section Generator.

(** luaparse's [inParens] flag of a node, set when the source wrote the
    expression in parentheses. *)
Variable inParens : Expression -> bool.

(** [formatParenForIndexer(base)] (l.1048-1066) around the text of [base]. *)
Definition formatParenForIndexer (base : Expression) (text : string) : string :=
  if inParens base && needsParens base then "(" +++ text +++ ")" else text.

(** [generateExpression] (l.1002-1046); a kind it does not handle prints
    as [<] its type [>]. *)
Fixpoint generateExpression (expression : Expression) (options : ExpressionOptions)
  {struct expression} : string :=
  match expression with
  | Identifier name _ => name
  | Literal _ raw => raw
  | BinaryExpression operator left' right' =>
      let currentPrecedence := PRECEDENCE operator in
      let leftHand := generateExpression left'
                        (mkOptions currentPrecedence (Some "left") (Some operator)) in
      let rightHand := generateExpression right'
                        (mkOptions currentPrecedence (Some "right") (Some operator)) in
      let associativity := if String.eqb operator "^" || String.eqb operator ".."
                           then "right" else "left" in
      if js_lt currentPrecedence (precedence options) ||
         (js_num_eq currentPrecedence (precedence options) &&
          negb (js_str_eq (Some associativity) (direction options)) &&
          negb (js_str_eq (parent options) (Some "+")) &&
          negb (js_str_eq (parent options) (Some "*") &&
                (String.eqb operator "/" || String.eqb operator "*")))
      then "(" +++ joinSnippet (joinSnippet leftHand operator None) rightHand None +++ ")"
      else joinSnippet (joinSnippet leftHand operator None) rightHand None
  | CallExpression base arguments =>
      formatParenForIndexer base (generateExpression base default_options) +++ "("
        +++ js_join "," (generateArguments arguments) +++ ")"
  | MemberExpression base indexer identifier =>
      formatParenForIndexer base (generateExpression base default_options) +++ indexer
        +++ generateExpression identifier default_options
  | UnaryExpression _ _ => "<UnaryExpression>"
  | IndexExpression _ _ => "<IndexExpression>"
  | TableConstructorExpression _ => "<TableConstructorExpression>"
  end
with generateArguments (l : ExpressionList) {struct l} : list string :=
  match l with
  | ENil => []
  | ECons e rest => generateExpression e default_options :: generateArguments rest
  end.

End Generator.

End Ast2Lua.

(** Expressions built from non-local identifiers, literals and binary
    operators other than [^] and [..] (and other than the empty string and
    [.], which are no operators). *)
Fixpoint plain_expression (e : Expression) : bool :=
  match e with
  | Identifier _ isLocal => negb isLocal
  | Literal _ _ => true
  | BinaryExpression operator l r =>
      negb (String.eqb operator "") && negb (String.eqb operator ".") &&
      negb (String.eqb operator "^") && negb (String.eqb operator "..") &&
      plain_expression l && plain_expression r
  | _ => false
  end.

(** [a-(b-2*c)] as a tree. *)
Definition agree_example : Expression :=
  BinaryExpression "-" (Identifier "a" false)
    (BinaryExpression "-" (Identifier "b" false)
       (BinaryExpression "*" (Literal NumericLiteral "2") (Identifier "c" false))).


(* ================================================================== *)
(** ** Examples *)

Example bundle_diamond :
  let r := bundler_parse (table_host diamond_files) (minifier_config "main.lua" module_like) 10 minifier_init in
  option_map sn_toString (match fst r with inr sn => Some sn | inl _ => None end) =
  Some ("--#keep: notice" +++ newline +++ require_header +++ "if m==" +++ dq +++ "util" +++ dq
        +++ "then r=(function() return " +++ dq +++ "util.lua" +++ dq +++ " end)()end" +++ newline
        +++ require_footer +++ "return " +++ dq +++ "main.lua" +++ dq)
  /\ passes (snd r) = ["main"; "util"].
Proof. vm_compute. split; reflexivity. Qed.

Example cli_diamond :
  fst (cli_main (table_host diamond_files) module_like 10 ["main.lua"; "none.lua"])
  = [WriteFile "main.min.lua"
       (sn_toString (sn_add (SNStr (newline +++ "--[[" +++ newline +++ "//# sourceMappingURL=main.lua.map"
                                    +++ newline +++ "]]"))
          (match fst (bundler_parse (table_host diamond_files) (minifier_config "main.lua" module_like)
                        10 minifier_init) with inr sn => sn | inl _ => SNStr "" end)));
     WriteSourceMap "main.lua.map"
       (sn_add (SNStr (newline +++ "--[[" +++ newline +++ "//# sourceMappingURL=main.lua.map"
                       +++ newline +++ "]]"))
          (match fst (bundler_parse (table_host diamond_files) (minifier_config "main.lua" module_like)
                        10 minifier_init) with inr sn => sn | inl _ => SNStr "" end));
     Stderr "No such file: none.lua"].
Proof. vm_compute. reflexivity. Qed.

Example path_parse_nested : path_parse "src/app.min.lua" = mkParsedPath "src" "app.min" ".lua".
Proof. reflexivity. Qed.

Example fmt_pow_chain :
  option_map fst (formatExpression 5
    (BinaryExpression "^" (BinaryExpression "^" (Identifier "a" false) (Identifier "b" false))
       (Identifier "c" false)) default_options (minifier_new module_load_state [])) = Some "a^b^c".
Proof. vm_compute. reflexivity. Qed.
Example fmt_sum_times :
  option_map fst (formatExpression 5
    (BinaryExpression "*" (BinaryExpression "+" (Identifier "a" false) (Identifier "b" false))
       (Identifier "c" false)) default_options (minifier_new module_load_state [])) = Some "(a+b)*c".
Proof. vm_compute. reflexivity. Qed.
Example fmt_local_sum :
  Minifier_runs 10 module_load_state
    [mkChunk [] [LocalStatement (ECons (Identifier "a" true) ENil)
       (ECons (BinaryExpression "+" (Literal NumericLiteral "1")
          (BinaryExpression "*" (Literal NumericLiteral "2") (Literal NumericLiteral "3"))) ENil)]]
  = Some ["local a=1+2*3"].
Proof. vm_compute. reflexivity. Qed.

Example sep_while_1 : isNeedSeparator "while" "1" = true. Proof. reflexivity. Qed.
Example sep_1_dotdot : isNeedSeparator "1" ".." = true. Proof. reflexivity. Qed.
Example sep_1_paren : isNeedSeparator "1" "(" = false. Proof. reflexivity. Qed.
Example sep_dot : isNeedSeparator "." "x" = true. Proof. reflexivity. Qed.
Example sep_dotdot : isNeedSeparator "a.." "x" = false. Proof. reflexivity. Qed.

Example gen_first : option_map fst (generateSequence 10 ["x"; "y"; "x"] (minifier_new module_load_state ["a"])) = Some ["b"; "c"; "b"].
Proof. vm_compute. reflexivity. Qed.
Example zeroes_5 : generateZeroes 5 = "00000". Proof. reflexivity. Qed.
Example gen_rollover : advance_loop "z_" 2 2 = Some "A0". Proof. reflexivity. Qed.
Example gen_grow : advance_loop "__" 2 2 = None. Proof. reflexivity. Qed.

(* ------------------------------------------------------------------ *)
(** *** Separator resolver: helper lemmas *)

Lemma substring_1_get (n : nat) (s : string) :
  substring n 1 s = match String.get n s with Some c => String c "" | None => "" end.
Proof.
  revert n. induction s as [|c s IH]; intros [|n]; simpl; try reflexivity.
  - destruct s; reflexivity.
  - apply IH.
Qed.

Lemma slice_last_get (a : string) :
  slice_last a = match last_char a with Some c => String c "" | None => "" end.
Proof.
  unfold slice_last, last_char. destruct (String.length a) as [|n] eqn:E.
  - destruct a; [reflexivity | discriminate].
  - rewrite substring_1_get. replace (S n - 1)%nat with n by lia. reflexivity.
Qed.

Lemma slice_second_last_get (a : string) :
  slice_second_last a =
  match char_before_last a with Some c => String c "" | None => "" end.
Proof.
  unfold slice_second_last, char_before_last.
  destruct (String.length a) as [|[|n]]; try reflexivity. apply substring_1_get.
Qed.

Lemma charAt0_get (b : string) :
  charAt b 0 = match first_char b with Some c => String c "" | None => "" end.
Proof. unfold charAt, first_char. apply substring_1_get. Qed.

Lemma regex_test_single (cls : ascii -> bool) (c : ascii) :
  regex_test cls (String c "") = cls c.
Proof. simpl. apply orb_false_r. Qed.

Lemma string_eqb_single (c d : ascii) :
  String.eqb (String c "") (String d "") = Ascii.eqb c d.
Proof. simpl. destruct (Ascii.eqb c d); reflexivity. Qed.

(** The character classes are exclusive (checked on all 256 characters). *)
Lemma alpha_excl (x : ascii) :
  cls_alpha_underscore x = true ->
  cls_digit x = false /\ Ascii.eqb x "-" = false /\ Ascii.eqb x "." = false.
Proof. destruct x as [[] [] [] [] [] [] [] []]; vm_compute; intuition congruence. Qed.

Lemma digit_excl (x : ascii) :
  cls_digit x = true -> Ascii.eqb x "-" = false /\ Ascii.eqb x "." = false.
Proof. destruct x as [[] [] [] [] [] [] [] []]; vm_compute; intuition congruence. Qed.

Lemma dash_not_dot (x : ascii) : Ascii.eqb x "-" = true -> Ascii.eqb x "." = false.
Proof. intros H. apply Ascii.eqb_eq in H. subst. reflexivity. Qed.

(* ------------------------------------------------------------------ *)
(** *** Claim C3 *)

(** The if-chain of [isNeedSeparator] computes the rule of 4.2. *)
Lemma isNeedSeparator_rule_eq (a b : string) :
  isNeedSeparator a b = need_separator_rule a b.
Proof.
  unfold isNeedSeparator, need_separator_rule.
  rewrite slice_last_get, charAt0_get, slice_second_last_get.
  destruct (last_char a) as [x|]; destruct (first_char b) as [y|];
    try reflexivity.
  - cbv zeta. rewrite !regex_test_single.
    change (String.eqb (String x "") "") with false.
    change (String.eqb (String y "") "") with false. simpl orb at 1.
    change "-" with (String "-" "") at 1. change "." with (String "." "") at 1.
    change "(" with (String "(" "") at 1. change "." with (String "." "") at 1.
    rewrite !string_eqb_single.
    destruct (cls_alpha_underscore x) eqn:Ha.
    + destruct (alpha_excl x Ha) as (Hd & Hm & Hp). rewrite Hd, Hm, Hp.
      destruct (cls_alnum_underscore y); reflexivity.
    + destruct (cls_digit x) eqn:Hd.
      * destruct (digit_excl x Hd) as (Hm & Hp). rewrite Hm, Hp.
        destruct (Ascii.eqb y "("), (Ascii.eqb y "."),
          (cls_alpha_underscore y); reflexivity.
      * simpl.
        destruct (Ascii.eqb x "-") eqn:Hm.
        -- apply Ascii.eqb_eq in Hm. subst x. rewrite (Ascii.eqb_sym "-" y).
           destruct (Ascii.eqb y "-"); reflexivity.
        -- rewrite andb_false_r. simpl.
           destruct (char_before_last a) as [z|]; simpl;
             try rewrite string_eqb_single; destruct (Ascii.eqb x ".");
             simpl; try destruct (Ascii.eqb z "."); destruct (cls_alnum_underscore y);
             reflexivity.
Qed.

(** C3: for all strings [a] and [b], [isNeedSeparator a b] is true exactly
    when the last character of [a] and the first character of [b] exist and
    (last is a letter or underscore and first a letter, digit or underscore)
    or (last is a digit and first is not [(] and is [.] or a letter or
    underscore) or (both are [-]) or (last is [.], the character before it
    is not [.], and first is a letter, digit or underscore); false otherwise,
    in particular when [a] or [b] is empty. *)
Theorem isNeedSeparator_cases (a b : string) :
  isNeedSeparator a b = need_separator_rule a b.
Proof. exact (isNeedSeparator_rule_eq a b). Qed.


(* ------------------------------------------------------------------ *)
(** *** Identifier minifier: strings of zeroes and decomposition *)

Lemma str_app_nil_l (s : string) : "" +++ s = s.
Proof. reflexivity. Qed.

Lemma str_app_cons (x : ascii) (a b : string) : String x a +++ b = String x (a +++ b).
Proof. reflexivity. Qed.

Lemma str_app_nil_r (s : string) : s +++ "" = s.
Proof. induction s as [|c s IH]; [reflexivity | now rewrite str_app_cons, IH]. Qed.

Lemma str_app_assoc (a b c : string) : (a +++ b) +++ c = a +++ (b +++ c).
Proof. induction a as [|x a IH]; [reflexivity | now rewrite !str_app_cons, IH]. Qed.

Lemma str_app_length (a b : string) :
  String.length (a +++ b) = (String.length a + String.length b)%nat.
Proof.
  induction a as [|x a IH]; [reflexivity|]. rewrite str_app_cons. simpl. now rewrite IH.
Qed.

Lemma zeros_add (m n : nat) : zeros m +++ zeros n = zeros (m + n).
Proof. induction m as [|m IH]; [reflexivity|]. simpl zeros. now rewrite str_app_cons, IH. Qed.

Lemma zeros_length (n : nat) : String.length (zeros n) = n.
Proof. induction n as [|n IH]; simpl; congruence. Qed.

Lemma zeroes_loop_zeros (p : positive) (m : nat) (r : string) :
  zeroes_loop p (zeros m) r = r +++ zeros (m * Pos.to_nat p).
Proof.
  revert m r. induction p as [p IH|p IH|]; intros m r; simpl.
  - rewrite zeros_add, IH, str_app_assoc, zeros_add. f_equal. f_equal.
    rewrite Pos2Nat.inj_xI. lia.
  - rewrite zeros_add, IH. f_equal. f_equal. rewrite Pos2Nat.inj_xO. lia.
  - f_equal. f_equal. lia.
Qed.

Lemma generateZeroes_zeros (n : nat) : generateZeroes (Z.of_nat n) = zeros n.
Proof.
  unfold generateZeroes.
  destruct n as [|[|n]]; [reflexivity | reflexivity |].
  replace (Z.of_nat (S (S n)) <? 1)%Z with false by (symmetry; apply Z.ltb_ge; lia).
  replace (Z.of_nat (S (S n)) =? 1)%Z with false by (symmetry; apply Z.eqb_neq; lia).
  change "0" with (zeros 1). rewrite zeroes_loop_zeros, str_app_nil_l.
  f_equal. change (Z.to_pos (Z.of_nat (S (S n)))) with (Pos.of_succ_nat (S n)).
  rewrite SuccNat2Pos.id_succ.
  lia.
Qed.

Lemma substring_0_length (s : string) : substring 0 (String.length s) s = s.
Proof. induction s as [|c s IH]; simpl; [reflexivity | now rewrite IH]. Qed.

Lemma substring_0_length_le (n : nat) (s : string) :
  (n <= String.length s)%nat -> String.length (substring 0 n s) = n.
Proof.
  revert n. induction s as [|c s IH]; intros [|n] H; simpl in *; try lia; auto.
  f_equal. apply IH. lia.
Qed.

(** Splitting a string around one of its positions. *)
Lemma string_split_at (position : nat) (s : string) :
  (position < String.length s)%nat ->
  exists c, String.get position s = Some c /\
    s = substring 0 position s
        +++ String c (substring (S position) (String.length s - S position) s).
Proof.
  revert position. induction s as [|d s IH]; intros [|position] H; simpl in *; try lia.
  - exists d. split; [reflexivity|]. rewrite Nat.sub_0_r, substring_0_length. reflexivity.
  - destruct (IH position ltac:(lia)) as (c & Hc & Hs). exists c. split; [exact Hc|].
    rewrite str_app_cons. f_equal. exact Hs.
Qed.

(* ------------------------------------------------------------------ *)
(** *** Identifier minifier: ranks of candidates *)

Lemma indexOf_from_range (l : list string) (x : string) (i : Z) :
  indexOf_from l x i = (-1)%Z \/
  (i <= indexOf_from l x i < i + Z.of_nat (List.length l))%Z.
Proof.
  revert i. induction l as [|y l IH]; intros i; cbn [indexOf_from]; [now left|].
  destruct (String.eqb y x); [right; cbn [List.length]; lia|].
  destruct (IH (i + 1)%Z) as [H|H]; [now left | right; cbn [List.length]; lia].
Qed.

Lemma part_index_range (c : ascii) : (-1 <= part_index c <= 62)%Z.
Proof.
  unfold part_index, indexOf.
  destruct (indexOf_from_range IDENTIFIER_PARTS (String c "") 0) as [H|H];
    rewrite ?H; cbn [List.length IDENTIFIER_PARTS] in H; lia.
Qed.

Lemma parts_table_check : parts_table_ok = true.
Proof. vm_compute. reflexivity. Qed.

Lemma part_at_spec (i : Z) :
  (0 <= i <= 62)%Z -> exists c, part_at i = String c "" /\ part_index c = i.
Proof.
  intros Hi. pose proof parts_table_check as Ht. unfold parts_table_ok in Ht.
  rewrite forallb_forall in Ht.
  assert (Hin : In (Z.to_nat i) (seq 0 63)) by (apply in_seq; lia).
  specialize (Ht _ Hin). rewrite Z2Nat.id in Ht by lia.
  destruct (part_at i) as [|c [|d t]]; try discriminate.
  exists c. split; [reflexivity | now apply Z.eqb_eq].
Qed.

Lemma rank_acc_app (acc : Z) (a b : string) :
  rank_acc acc (a +++ b) = rank_acc (rank_acc acc a) b.
Proof.
  revert acc. induction a as [|c a IH]; intros acc; [reflexivity|].
  rewrite str_app_cons. cbn [rank_acc]. apply IH.
Qed.

Lemma rank_acc_shift (acc : Z) (s : string) :
  rank_acc acc s = (acc * 64 ^ Z.of_nat (String.length s) + rank_acc 0 s)%Z.
Proof.
  revert acc. induction s as [|c s IH]; intros acc; cbn [rank_acc String.length].
  - cbn. lia.
  - rewrite IH, (IH (0 * 64 + part_index c + 1)%Z).
    rewrite Nat2Z.inj_succ, Z.pow_succ_r by lia. ring.
Qed.

Lemma rank_acc_bounds (s : string) :
  (0 <= rank_acc 0 s < 64 ^ Z.of_nat (String.length s))%Z.
Proof.
  induction s as [|c s IH]; cbn [rank_acc String.length]; [cbn; lia|].
  rewrite rank_acc_shift. pose proof (part_index_range c).
  rewrite Nat2Z.inj_succ, Z.pow_succ_r by lia.
  assert (0 < 64 ^ Z.of_nat (String.length s))%Z by (apply Z.pow_pos_nonneg; lia).
  nia.
Qed.

(** One turn of the odometer: the structure of the new candidate. *)
Lemma advance_loop_some (cur : string) (p : nat) (next : string) :
  (p <= String.length cur)%nat ->
  advance_loop cur (String.length cur) p = Some next ->
  exists pre c post,
    cur = pre +++ String c post /\ (String.length pre < p)%nat /\
    part_index c <> 62%Z /\
    next = pre +++ part_at (part_index c + 1) +++ zeros (String.length post).
Proof.
  induction p as [|position IH]; intros Hp H; [discriminate|].
  cbn [advance_loop] in H.
  destruct (string_split_at position cur ltac:(lia)) as (c & Hget & Hsplit).
  set (pre := substring 0 position cur) in *.
  set (post := substring (S position) (String.length cur - S position) cur) in *.
  assert (Hpre : String.length pre = position) by (apply substring_0_length_le; lia).
  assert (Hpost : String.length post = (String.length cur - S position)%nat).
  { pose proof (f_equal String.length Hsplit) as Hl.
    rewrite str_app_length in Hl. cbn [String.length] in Hl. lia. }
  unfold charAt in H. rewrite substring_1_get, Hget in H.
  change (indexOf IDENTIFIER_PARTS (String c "")) with (part_index c) in H.
  change (Z.of_nat (List.length IDENTIFIER_PARTS) - 1)%Z with 62%Z in H.
  destruct (Z.eqb (part_index c) 62) eqn:E; cbn [negb] in H.
  - destruct (IH ltac:(lia) H) as (pre' & d & post' & H1 & H2 & H3 & H4).
    exists pre', d, post'. repeat split; auto; lia.
  - injection H as <-. exists pre, c, post.
    split; [exact Hsplit|]. split; [lia|]. split; [now apply Z.eqb_neq|].
    f_equal. f_equal.
    replace (Z.of_nat (String.length cur) - (Z.of_nat position + 1))%Z
      with (Z.of_nat (String.length cur - S position)) by lia.
    rewrite generateZeroes_zeros, Hpost. reflexivity.
Qed.

Lemma advance_loop_rank (cur next : string) :
  advance_loop cur (String.length cur) (String.length cur) = Some next ->
  (rank cur < rank next)%Z.
Proof.
  intros H.
  destruct (advance_loop_some cur _ next (le_n _) H) as (pre & c & post & Hc & _ & Hne & Hn).
  pose proof (part_index_range c) as Hr.
  destruct (part_at_spec (part_index c + 1)) as (d & Hd & Hdi); [lia|].
  subst next. rewrite Hd, str_app_cons, str_app_nil_l. unfold rank. rewrite Hc.
  rewrite !rank_acc_app. cbn [rank_acc].
  rewrite (rank_acc_shift (_ + part_index c + 1)%Z post).
  rewrite (rank_acc_shift (_ + part_index d + 1)%Z (zeros _)), zeros_length, Hdi.
  pose proof (rank_acc_bounds post). pose proof (rank_acc_bounds (zeros (String.length post))).
  rewrite zeros_length in *.
  assert (0 < 64 ^ Z.of_nat (String.length post))%Z by (apply Z.pow_pos_nonneg; lia).
  nia.
Qed.

Lemma grow_rank (cur : string) :
  (rank cur < rank ("a" +++ zeros (String.length cur)))%Z.
Proof.
  unfold rank. rewrite (rank_acc_shift 1 cur).
  change ("a" +++ zeros (String.length cur)) with (String "a" (zeros (String.length cur))).
  cbn [rank_acc]. change (part_index "a") with 10%Z.
  rewrite (rank_acc_shift _ (zeros _)), zeros_length.
  pose proof (rank_acc_bounds cur). pose proof (rank_acc_bounds (zeros (String.length cur))).
  rewrite zeros_length in *. nia.
Qed.

(* ------------------------------------------------------------------ *)
(** *** Identifier minifier: shape of the candidates *)

Lemma advance_first_ok (cur next : string) :
  first_ok cur ->
  advance_loop cur (String.length cur) (String.length cur) = Some next ->
  first_ok next /\ next <> "".
Proof.
  intros Hf H.
  destruct (advance_loop_some cur _ next (le_n _) H) as (pre & c & post & Hc & _ & Hne & Hn).
  pose proof (part_index_range c) as Hr.
  destruct (part_at_spec (part_index c + 1)) as (d & Hd & Hdi); [lia|].
  subst next. rewrite Hd. destruct pre as [|e pre'].
  - rewrite str_app_nil_l in Hc |- *. subst cur. rewrite str_app_cons.
    cbn [first_ok] in Hf |- *. split; [lia | discriminate].
  - rewrite str_app_cons in Hc |- *. subst cur.
    cbn [first_ok] in Hf |- *. split; [exact Hf | discriminate].
Qed.

Lemma grow_first_ok (n : nat) : first_ok ("a" +++ zeros n) /\ "a" +++ zeros n <> "".
Proof.
  change ("a" +++ zeros n) with (String "a" (zeros n)).
  cbn [first_ok]. change (part_index "a") with 10%Z. split; [lia | discriminate].
Qed.

Lemma grow_not_keyword (n : nat) : isKeyword ("a" +++ zeros n) = false.
Proof.
  change ("a" +++ zeros n) with (String "a" (zeros n)).
  destruct n as [|[|[|[|[|[|[|[|n]]]]]]]]; reflexivity.
Qed.

(** Characters of index at least 10 are exactly the letters and [_]. *)
Lemma part_index_alpha (c : ascii) :
  (10 <=? part_index c)%Z = true -> cls_alpha_underscore c = true.
Proof. destruct c as [[] [] [] [] [] [] [] []]; vm_compute; congruence. Qed.

Lemma first_ok_starts (s : string) :
  first_ok s -> s <> "" -> starts_with_letter_or_underscore s.
Proof.
  destruct s as [|c s]; [congruence|]. cbn [first_ok starts_with_letter_or_underscore].
  intros H _. apply part_index_alpha. now apply Z.leb_le.
Qed.

(* ------------------------------------------------------------------ *)
(** *** Identifier minifier: one call of [generateIdentifier] *)

Lemma js_truthy_none (st : MinState) (name : string) :
  map_values_nonempty st ->
  js_truthy (identifierMap st !! name) = false ->
  identifierMap st !! name = None.
Proof.
  intros Hne Ht. destruct (identifierMap st !! name) as [d|] eqn:Hd; [|reflexivity].
  exfalso. apply (Hne _ _ Hd). cbn [js_truthy] in Ht.
  destruct (String.eqb_spec d ""); [assumption | discriminate].
Qed.

(** Memoisation: the state only grows, the in-use set is untouched and the
    name is bound to the returned short name (unless it is [self]). *)
Lemma gen_memo (fuel : nat) (name : string) (st : MinState) (r : string) (st' : MinState) :
  map_values_nonempty st ->
  generateIdentifier fuel name st = Some (r, st') ->
  map_values_nonempty st' /\ identifiersInUse st' = identifiersInUse st /\
  (forall k v, identifierMap st !! k = Some v -> identifierMap st' !! k = Some v) /\
  ((name = "self" /\ r = "self" /\ st' = st) \/
   (name <> "self" /\ identifierMap st' !! name = Some r)).
Proof.
  revert st. induction fuel as [|fuel IH]; intros st Hne H; [discriminate|].
  cbn [generateIdentifier] in H.
  destruct (String.eqb_spec name "self") as [->|Hself].
  { injection H as <- <-. split; [exact Hne|]. split; [reflexivity|].
    split; [auto|]. left; auto. }
  destruct (js_truthy (identifierMap st !! name)) eqn:Ht.
  { injection H as <- <-. split; [exact Hne|]. split; [reflexivity|].
    split; [auto|]. right. split; [exact Hself|].
    destruct (identifierMap st !! name); [reflexivity | discriminate]. }
  pose proof (js_truthy_none st name Hne Ht) as Hnone.
  (* the two ways of continuing: keep the map, or bind [name] *)
  assert (Hkeep : forall next, generateIdentifier fuel name (set_current st next) = Some (r, st') ->
    map_values_nonempty st' /\ identifiersInUse st' = identifiersInUse st /\
    (forall k v, identifierMap st !! k = Some v -> identifierMap st' !! k = Some v) /\
    ((name = "self" /\ r = "self" /\ st' = st) \/
     (name <> "self" /\ identifierMap st' !! name = Some r))).
  { intros next Hg. destruct (IH (set_current st next) Hne Hg) as (H1 & H2 & H3 & H4).
    split; [exact H1|]. split; [exact H2|]. split; [exact H3|].
    destruct H4 as [(E & _)|H4]; [congruence | right; exact H4]. }
  assert (Hbind : forall next, next <> "" ->
    generateIdentifier fuel name (map_set (set_current st next) name next) = Some (r, st') ->
    map_values_nonempty st' /\ identifiersInUse st' = identifiersInUse st /\
    (forall k v, identifierMap st !! k = Some v -> identifierMap st' !! k = Some v) /\
    ((name = "self" /\ r = "self" /\ st' = st) \/
     (name <> "self" /\ identifierMap st' !! name = Some r))).
  { intros next Hn Hg.
    assert (Hne' : map_values_nonempty (map_set (set_current st next) name next)).
    { intros k v Hk. cbn in Hk. rewrite lookup_insert in Hk.
      destruct (decide (name = k)); [congruence | exact (Hne _ _ Hk)]. }
    destruct (IH _ Hne' Hg) as (H1 & H2 & H3 & H4).
    split; [exact H1|]. split; [exact H2|]. split.
    - intros k v Hk. apply H3. cbn. rewrite lookup_insert.
      destruct (decide (name = k)); [congruence | exact Hk].
    - destruct H4 as [(E & _)|H4]; [congruence | right; exact H4]. }
  destruct (advance_loop (currentIdentifier st) _ _) as [next|] eqn:Ha.
  - assert (Hn : next <> "").
    { destruct (advance_loop_some _ _ next (le_n _) Ha) as (pre & c & post & _ & _ & Hc & ->).
      pose proof (part_index_range c).
      destruct (part_at_spec (part_index c + 1)) as (d & Hd & _); [lia|].
      rewrite Hd. destruct pre; discriminate. }
    destruct (isKeyword next || bool_decide _); [exact (Hkeep _ H) | exact (Hbind _ Hn H)].
  - rewrite generateZeroes_zeros in H.
    destruct (bool_decide _); [exact (Hkeep _ H)|].
    exact (Hbind _ (proj2 (grow_first_ok _)) H).
Qed.

Lemma gen_inv_nonempty (st : MinState) : gen_inv st -> map_values_nonempty st.
Proof. intros (Hv & _ & _) k v Hk. apply (Hv _ _ Hk). Qed.

(** One call of [generateIdentifier] keeps the run invariant. *)
Lemma gen_inv_step (fuel : nat) (name : string) (st : MinState) (r : string) (st' : MinState) :
  gen_inv st -> generateIdentifier fuel name st = Some (r, st') -> gen_inv st'.
Proof.
  revert st. induction fuel as [|fuel IH]; intros st Hinv H; [discriminate|].
  cbn [generateIdentifier] in H.
  destruct (String.eqb_spec name "self") as [->|Hself]; [congruence|].
  destruct (js_truthy (identifierMap st !! name)) eqn:Ht; [congruence|].
  pose proof (js_truthy_none st name (gen_inv_nonempty st Hinv) Ht) as Hnone.
  destruct Hinv as (Hv & Hinj & Hf).
  assert (Hkeep : forall next, (rank (currentIdentifier st) < rank next)%Z -> first_ok next ->
    generateIdentifier fuel name (set_current st next) = Some (r, st') -> gen_inv st').
  { intros next Hr Hfn Hg. refine (IH _ _ Hg). split; [|split].
    - intros k v Hk. destruct (Hv k v Hk) as (H1 & H2 & H3 & H4 & H5). cbn [set_current map_set currentIdentifier identifierMap identifiersInUse].
      split; [exact H1|]. split; [exact H2|]. split; [exact H3|].
      split; [exact H4|]. lia.
    - exact Hinj.
    - exact Hfn. }
  assert (Hbind : forall next, (rank (currentIdentifier st) < rank next)%Z -> first_ok next ->
    next <> "" -> isKeyword next = false -> next ∉ identifiersInUse st ->
    generateIdentifier fuel name (map_set (set_current st next) name next) = Some (r, st') ->
    gen_inv st').
  { intros next Hr Hfn Hn Hk Hu Hg. refine (IH _ _ Hg). split; [|split].
    - intros k v Hkv. cbn [set_current map_set currentIdentifier identifierMap identifiersInUse] in Hkv |- *. rewrite lookup_insert in Hkv.
      destruct (decide (name = k)).
      + injection Hkv as <-. split; [exact Hn|]. split; [exact Hfn|].
        split; [exact Hk|]. split; [exact Hu|]. lia.
      + destruct (Hv k v Hkv) as (H1 & H2 & H3 & H4 & H5).
        split; [exact H1|]. split; [exact H2|]. split; [exact H3|].
        split; [exact H4|]. lia.
    - intros k1 k2 v H1 H2. cbn [set_current map_set currentIdentifier identifierMap identifiersInUse] in H1, H2. rewrite lookup_insert in H1, H2.
      destruct (decide (name = k1)) as [<-|N1], (decide (name = k2)) as [<-|N2].
      + reflexivity.
      + injection H1 as <-. destruct (Hv _ _ H2) as (_ & _ & _ & _ & Hle). lia.
      + injection H2 as <-. destruct (Hv _ _ H1) as (_ & _ & _ & _ & Hle). lia.
      + exact (Hinj _ _ _ H1 H2).
    - exact Hfn. }
  destruct (advance_loop (currentIdentifier st) _ _) as [next|] eqn:Ha.
  - pose proof (advance_loop_rank _ _ Ha) as Hr.
    destruct (advance_first_ok _ _ Hf Ha) as (Hfn & Hn).
    destruct (isKeyword next || bool_decide _) eqn:Hc; [exact (Hkeep _ Hr Hfn H)|].
    apply orb_false_iff in Hc as (Hk & Hu). apply bool_decide_eq_false in Hu.
    exact (Hbind _ Hr Hfn Hn Hk Hu H).
  - rewrite generateZeroes_zeros in H.
    destruct (grow_first_ok (String.length (currentIdentifier st))) as (Hfn & Hn).
    pose proof (grow_rank (currentIdentifier st)) as Hr.
    destruct (bool_decide _) eqn:Hu; [exact (Hkeep _ Hr Hfn H)|].
    apply bool_decide_eq_false in Hu.
    exact (Hbind _ Hr Hfn Hn (grow_not_keyword _) Hu H).
Qed.

(* ------------------------------------------------------------------ *)
(** *** Identifier minifier: sequences of calls *)

Lemma seq_memo (fuel : nat) (names : list string) (st : MinState) (rs : list string) (st' : MinState) :
  map_values_nonempty st ->
  generateSequence fuel names st = Some (rs, st') ->
  map_values_nonempty st' /\ identifiersInUse st' = identifiersInUse st /\
  (forall k v, identifierMap st !! k = Some v -> identifierMap st' !! k = Some v) /\
  (forall i n r, names !! i = Some n -> rs !! i = Some r ->
     (n = "self" /\ r = "self") \/ (n <> "self" /\ identifierMap st' !! n = Some r)).
Proof.
  revert st rs. induction names as [|n ns IH]; intros st rs Hne H.
  - injection H as <- <-. split; [exact Hne|]. split; [reflexivity|].
    split; [auto|]. intros i n r Hi. rewrite lookup_nil in Hi. discriminate.
  - cbn [generateSequence] in H.
    destruct (generateIdentifier fuel n st) as [[r1 st1]|] eqn:Hg; [|discriminate].
    destruct (generateSequence fuel ns st1) as [[rs1 st2]|] eqn:Hs; [|discriminate].
    injection H as <- <-.
    destruct (gen_memo _ _ _ _ _ Hne Hg) as (G1 & G2 & G3 & G4).
    destruct (IH _ _ G1 Hs) as (S1 & S2 & S3 & S4).
    split; [exact S1|]. split; [congruence|]. split; [auto|].
    intros [|i] m r Hi Hr; cbn in Hi, Hr.
    + injection Hi as <-. injection Hr as <-.
      destruct G4 as [(E1 & E2 & _)|(E1 & E2)]; [left; auto | right; auto].
    + exact (S4 _ _ _ Hi Hr).
Qed.

Lemma seq_inv (fuel : nat) (names : list string) (st : MinState) (rs : list string) (st' : MinState) :
  gen_inv st -> generateSequence fuel names st = Some (rs, st') -> gen_inv st'.
Proof.
  revert st rs. induction names as [|n ns IH]; intros st rs Hinv H.
  - injection H as <- <-. exact Hinv.
  - cbn [generateSequence] in H.
    destruct (generateIdentifier fuel n st) as [[r1 st1]|] eqn:Hg; [|discriminate].
    destruct (generateSequence fuel ns st1) as [[rs1 st2]|] eqn:Hs; [|discriminate].
    injection H as <- <-. exact (IH _ _ (gen_inv_step _ _ _ _ _ Hinv Hg) Hs).
Qed.

Lemma minifier_new_inv (globals : list string) :
  gen_inv (minifier_new module_load_state globals).
Proof.
  split; [|split].
  - intros k v Hk. cbn in Hk. rewrite lookup_empty in Hk. discriminate.
  - intros k1 k2 v Hk. cbn in Hk. rewrite lookup_empty in Hk. discriminate.
  - exact I.
Qed.

Lemma foldl_union_elem (globals : list string) (S : gset string) (g : string) :
  In g globals \/ g ∈ S -> g ∈ foldl (fun acc g => {[ g ]} ∪ acc) S globals.
Proof.
  revert S. induction globals as [|h gs IH]; intros S Hg; cbn [foldl].
  - destruct Hg as [[]|Hg]; exact Hg.
  - apply IH. destruct Hg as [[->|Hg]|Hg]; [right; set_solver | left; exact Hg | right; set_solver].
Qed.

Lemma generateSequence_length (fuel : nat) (names : list string) (st : MinState)
  (rs : list string) (st' : MinState) :
  generateSequence fuel names st = Some (rs, st') -> List.length rs = List.length names.
Proof.
  revert st rs. induction names as [|n ns IH]; intros st rs H.
  - injection H as <- <-. reflexivity.
  - cbn [generateSequence] in H.
    destruct (generateIdentifier fuel n st) as [[r1 st1]|]; [|discriminate].
    destruct (generateSequence fuel ns st1) as [[rs1 st2]|] eqn:Hs; [|discriminate].
    injection H as <- <-. cbn [List.length]. f_equal. exact (IH _ _ Hs).
Qed.

(* ------------------------------------------------------------------ *)
(** *** Claims C2, C4, C10 *)

(** C2: in one run (a [Minifier] created on the module's initial rename
    state with the chunk's [globals]), the short names returned for
    distinct original names (other than [self], which is never renamed)
    are pairwise distinct, no such name is a Lua keyword, none is in the
    in-use set of the run (in particular none is one of the globals); and
    with a global [a], the first two distinct locals become [b] then [c]. *)
Theorem generateIdentifier_collision_free (globals names : list string) (fuel : nat)
  (rs : list string) (st : MinState) :
  generateSequence fuel names (minifier_new module_load_state globals) = Some (rs, st) ->
  (forall i j n m r q, names !! i = Some n -> names !! j = Some m ->
     rs !! i = Some r -> rs !! j = Some q ->
     n <> m -> n <> "self" -> m <> "self" -> r <> q) /\
  (forall i n r, names !! i = Some n -> rs !! i = Some r -> n <> "self" ->
     isKeyword r = false /\ (r ∉ identifiersInUse st) /\ ~ In r globals) /\
  option_map fst (generateSequence 10 ["x"; "y"] (minifier_new module_load_state ["a"]))
    = Some ["b"; "c"].
Proof.
  intros H.
  pose proof (minifier_new_inv globals) as Hinv0.
  pose proof (seq_inv _ _ _ _ _ Hinv0 H) as (Hv & Hinj & _).
  destruct (seq_memo _ _ _ _ _ (gen_inv_nonempty _ Hinv0) H) as (_ & Huse & _ & Hmap).
  split; [|split].
  - intros i j n m r q Hn Hm Hr Hq Hnm Hsn Hsm Hrq. subst q.
    destruct (Hmap _ _ _ Hn Hr) as [(E & _)|(_ & E1)]; [congruence|].
    destruct (Hmap _ _ _ Hm Hq) as [(E & _)|(_ & E2)]; [congruence|].
    exact (Hnm (Hinj _ _ _ E1 E2)).
  - intros i n r Hn Hr Hs.
    destruct (Hmap _ _ _ Hn Hr) as [(E & _)|(_ & E1)]; [congruence|].
    destruct (Hv _ _ E1) as (_ & _ & Hk & Hu & _).
    split; [exact Hk|]. split; [exact Hu|].
    intros Hin. apply Hu. rewrite Huse. cbn [minifier_new identifiersInUse].
    apply foldl_union_elem. left. exact Hin.
  - vm_compute. reflexivity.
Qed.

Lemma generateIdentifier_collision_free_witness :
  generateSequence 10 ["x"; "y"; "z"] (minifier_new module_load_state ["a"; "c"])
    = Some (["b"; "d"; "e"], snd (default ([], minifier_new module_load_state [])
        (generateSequence 10 ["x"; "y"; "z"] (minifier_new module_load_state ["a"; "c"])))) /\
  "b" <> "d".
Proof.
  split; [vm_compute; reflexivity|].
  refine (proj1 (generateIdentifier_collision_free ["a"; "c"] ["x"; "y"; "z"] 10
                   ["b"; "d"; "e"] _ _) 0 1 "x" "y" "b" "d" _ _ _ _ _ _ _);
    try reflexivity; try discriminate.
Defined.

(** C4: renaming is memoised: in a sequence of calls of the generator on
    one [Minifier] (from any rename state whose map holds non-empty names,
    as every reachable one does), a later call with a name returns the
    short name returned by an earlier call with the same name. *)
Theorem generateIdentifier_memoized (fuel : nat) (names : list string) (st0 st : MinState)
  (rs : list string) :
  map_values_nonempty st0 ->
  generateSequence fuel names st0 = Some (rs, st) ->
  forall i j n, (i < j)%nat -> names !! i = Some n -> names !! j = Some n ->
  rs !! j = rs !! i.
Proof.
  intros Hne H i j n _ Hi Hj.
  destruct (seq_memo _ _ _ _ _ Hne H) as (_ & _ & _ & Hmap).
  pose proof (generateSequence_length fuel names st0 rs st H) as Hlen.
  destruct (rs !! i) as [ri|] eqn:Hri.
  2:{ apply lookup_ge_None in Hri. apply lookup_lt_Some in Hi. lia. }
  destruct (rs !! j) as [rj|] eqn:Hrj.
  2:{ apply lookup_ge_None in Hrj. apply lookup_lt_Some in Hj. lia. }
  f_equal.
  destruct (Hmap _ _ _ Hi Hri) as [(E1 & E2)|(E1 & E2)];
  destruct (Hmap _ _ _ Hj Hrj) as [(F1 & F2)|(F1 & F2)]; congruence.
Qed.

Lemma generateIdentifier_memoized_witness :
  map_values_nonempty (minifier_new module_load_state ["a"]) /\
  option_map fst (generateSequence 10 ["x"; "y"; "x"] (minifier_new module_load_state ["a"]))
    = Some ["b"; "c"; "b"] /\
  ["b"; "c"; "b"] !! 2 = ["b"; "c"; "b"] !! 0.
Proof.
  assert (Hne : map_values_nonempty (minifier_new module_load_state ["a"])).
  { intros k v Hk. cbn in Hk. rewrite lookup_empty in Hk. discriminate. }
  split; [exact Hne|]. split; [vm_compute; reflexivity|].
  exact (generateIdentifier_memoized 10 ["x"; "y"; "x"] _
           (snd (default ([], minifier_new module_load_state [])
              (generateSequence 10 ["x"; "y"; "x"] (minifier_new module_load_state ["a"]))))
           ["b"; "c"; "b"] Hne ltac:(vm_compute; reflexivity) 0 2 "x"
           ltac:(lia) eq_refl eq_refl).
Defined.

(** C10: every short name returned by the generator in a run starts with a
    lowercase letter, an uppercase letter or [_], never with a digit. *)
Theorem generateIdentifier_leading_letter (globals names : list string) (fuel : nat)
  (rs : list string) (st : MinState) :
  generateSequence fuel names (minifier_new module_load_state globals) = Some (rs, st) ->
  Forall starts_with_letter_or_underscore rs.
Proof.
  intros H.
  pose proof (minifier_new_inv globals) as Hinv0.
  pose proof (seq_inv _ _ _ _ _ Hinv0 H) as (Hv & _ & _).
  destruct (seq_memo _ _ _ _ _ (gen_inv_nonempty _ Hinv0) H) as (_ & _ & _ & Hmap).
  pose proof (generateSequence_length _ _ _ _ _ H) as Hlen.
  apply Forall_lookup. intros i r Hr.
  destruct (lookup_lt_is_Some_2 names i) as [n Hn].
  { apply lookup_lt_Some in Hr. lia. }
  destruct (Hmap _ _ _ Hn Hr) as [(_ & ->)|(_ & E)].
  - vm_compute. reflexivity.
  - destruct (Hv _ _ E) as (Hne & Hf & _). exact (first_ok_starts _ Hf Hne).
Qed.

Lemma generateIdentifier_leading_letter_witness :
  generateSequence 100 (map (fun n => String (ascii_of_nat (48 + n)) "") (seq 0 12))
     (minifier_new module_load_state []) <> None /\
  Forall starts_with_letter_or_underscore
    (default [] (option_map fst (generateSequence 100
       (map (fun n => String (ascii_of_nat (48 + n)) "") (seq 0 12))
       (minifier_new module_load_state [])))).
Proof.
  split; [vm_compute; discriminate|].
  destruct (generateSequence 100 (map (fun n => String (ascii_of_nat (48 + n)) "") (seq 0 12))
              (minifier_new module_load_state [])) as [[rs st]|] eqn:E.
  - exact (generateIdentifier_leading_letter [] _ 100 rs st E).
  - vm_compute in E. discriminate.
Defined.

(* ------------------------------------------------------------------ *)
(** *** Printer: the rename state only grows, and printing again replays *)

Lemma map_incl_refl (st : MinState) : map_incl st st.
Proof. intros k v H. exact H. Qed.

Lemma map_incl_trans (s1 s2 s3 : MinState) : map_incl s1 s2 -> map_incl s2 s3 -> map_incl s1 s3.
Proof. intros H1 H2 k v H. apply H2, H1, H. Qed.

Lemma pm_ret_good {A : Type} (x : A) : pm_good (pm_ret x).
Proof.
  split.
  - intros st y st' Hne H. injection H as <- <-. split; [exact Hne | apply map_incl_refl].
  - intros st y st' Hne H st'' _ _. injection H as <- <-. reflexivity.
Qed.

Lemma pm_bind_good {A B : Type} (m : PM A) (k : A -> PM B) :
  pm_good m -> (forall x, pm_good (k x)) -> pm_good (pm_bind m k).
Proof.
  intros [Hmg Hmr] Hk. split.
  - intros st y st' Hne H. unfold pm_bind in H.
    destruct (m st) as [[x st1]|] eqn:Hm; [|discriminate].
    destruct (Hmg _ _ _ Hne Hm) as [Hne1 Hi1].
    destruct (proj1 (Hk x) _ _ _ Hne1 H) as [Hne2 Hi2].
    split; [exact Hne2 | exact (map_incl_trans _ _ _ Hi1 Hi2)].
  - intros st y st' Hne H st'' Hne'' Hi''. unfold pm_bind in *.
    destruct (m st) as [[x st1]|] eqn:Hm; [|discriminate].
    destruct (Hmg _ _ _ Hne Hm) as [Hne1 Hi1].
    destruct (proj1 (Hk x) _ _ _ Hne1 H) as [_ Hi2].
    rewrite (Hmr _ _ _ Hne Hm st'' Hne'' (map_incl_trans _ _ _ Hi2 Hi'')).
    exact (proj2 (Hk x) _ _ _ Hne1 H st'' Hne'' Hi'').
Qed.

Lemma pm_if_good {A : Type} (b : bool) (m1 m2 : PM A) :
  pm_good m1 -> pm_good m2 -> pm_good (if b then m1 else m2).
Proof. destruct b; auto. Qed.

Lemma generateIdentifier_pm_good (fuel : nat) (name : string) :
  pm_good (generateIdentifier_pm fuel name).
Proof.
  unfold generateIdentifier_pm. split.
  - intros st r st' Hne H. destruct (gen_memo _ _ _ _ _ Hne H) as (H1 & _ & H3 & _).
    split; [exact H1 | exact H3].
  - intros st r st' Hne H st'' Hne'' Hi''.
    destruct (gen_memo _ _ _ _ _ Hne H) as (_ & _ & _ & H4).
    destruct fuel as [|fuel]; [discriminate|]. cbn [generateIdentifier].
    destruct H4 as [(-> & -> & _)|(Hself & Hr)].
    + reflexivity.
    + destruct (String.eqb_spec name "self") as [E|_]; [contradiction|].
      pose proof (Hi'' _ _ Hr) as Hr''. rewrite Hr''. cbn [js_truthy].
      destruct (String.eqb_spec r "") as [E|_]; [exact (False_ind _ (Hne'' _ _ Hr'' E))|].
      reflexivity.
Qed.

Lemma field_comma_good (last : bool) (m : PM string) :
  pm_good m -> pm_good (field_comma last m).
Proof.
  intros Hm. unfold field_comma. destruct (negb last).
  - apply pm_ret_good.
  - apply pm_bind_good; [exact Hm | intros; apply pm_ret_good].
Qed.

Ltac pm_good_step :=
  repeat first
    [ apply pm_bind_good; [solve [eauto] | intro]
    | apply pm_bind_good; [apply field_comma_good; solve [eauto] | intro]
    | apply pm_if_good
    | apply pm_ret_good
    | apply field_comma_good; solve [eauto]
    | apply generateIdentifier_pm_good ].

Lemma format_good (fuel : nat) :
  (forall e o, pm_good (formatExpression fuel e o)) /\
  (forall l, pm_good (formatArguments fuel l)) /\
  (forall fs, pm_good (formatFields fuel fs)) /\
  (forall f last, pm_good (formatField fuel f last)).
Proof.
  apply Expression_mutind; intros; cbn [formatExpression formatArguments formatFields formatField];
    pm_good_step.
Qed.




Lemma pm_replay (fuel : nat) (e : Expression) (o : ExpressionOptions) (st st' st'' : MinState) (x : string) :
  map_values_nonempty st -> formatExpression fuel e o st = Some (x, st') ->
  map_values_nonempty st'' -> map_incl st' st'' ->
  formatExpression fuel e o st'' = Some (x, st'').
Proof.
  intros H1 H2 H3 H4. exact (proj2 (proj1 (format_good fuel) e o) st x st' H1 H2 st'' H3 H4).
Qed.

Lemma pm_grow (fuel : nat) (e : Expression) (o : ExpressionOptions) (st st' : MinState) (x : string) :
  map_values_nonempty st -> formatExpression fuel e o st = Some (x, st') ->
  map_values_nonempty st' /\ map_incl st st'.
Proof. intros H1 H2. exact (proj1 (proj1 (format_good fuel) e o) st x st' H1 H2). Qed.





(** C1 (code): a [^] or [..] expression is never parenthesised, whatever
    the context: [(a^b)^c] prints as [a^b^c] (read back as [a^(b^c)]) and
    [(a..b)*c] as [a..b*c] (read back as [a..(b*c)]), where the rule of
    the specification asks for parentheses in both. *)
Theorem formatExpression_right_assoc_unparenthesized (fuel : nat) (st : MinState) :
  binary_parens_rule "^" (operand_options "^" "left") = true /\
  formatExpression fuel
    (BinaryExpression "^" (BinaryExpression "^" (Identifier "a" false) (Identifier "b" false))
       (Identifier "c" false)) default_options st = Some ("a^b^c", st) /\
  binary_parens_rule ".." (operand_options "*" "left") = true /\
  formatExpression fuel
    (BinaryExpression "*" (BinaryExpression ".." (Identifier "a" false) (Identifier "b" false))
       (Identifier "c" false)) default_options st = Some ("a..b*c", st).
Proof. split; [reflexivity|]. split; [reflexivity|]. split; reflexivity. Qed.

(** For every operator other than [^] and [..], the printed text is the
    operands' text wrapped in parentheses exactly when the rule of 4.5
    says so. *)
Theorem formatExpression_binary_parens (fuel : nat) (operator : string) (l r : Expression)
  (options : ExpressionOptions) (st st' : MinState) (t : string) :
  operator <> "^" -> operator <> ".." ->
  formatExpression fuel (BinaryExpression operator l r) options st = Some (t, st') ->
  exists lt rt st1,
    formatExpression fuel l (operand_options operator "left") st = Some (lt, st1) /\
    formatExpression fuel r (operand_options operator "right") st1 = Some (rt, st') /\
    t = if binary_parens_rule operator options
        then "(" +++ binary_parts lt operator rt +++ ")"
        else binary_parts lt operator rt.
Proof.
  intros Hp Hc H. cbn [formatExpression] in H. unfold pm_bind in H.
  destruct (formatExpression fuel l _ st) as [[lt st1]|] eqn:E1; [|discriminate].
  destruct (formatExpression fuel r _ st1) as [[rt st2]|] eqn:E2; [|discriminate].
  exists lt, rt, st1. split; [first [exact E1 | reflexivity]|].
  destruct (String.eqb_spec operator "^") as [|_]; [contradiction|].
  destruct (String.eqb_spec operator "..") as [|_]; [contradiction|].
  cbn [orb] in H.
  unfold binary_parens_rule, operator_associativity.
  destruct (String.eqb_spec operator "^") as [|_]; [contradiction|].
  destruct (String.eqb_spec operator "..") as [|_]; [contradiction|].
  cbn [orb].
  destruct (_ || _); injection H as <- <-; (split; [first [exact E2 | reflexivity] | reflexivity]).
Qed.

Lemma formatExpression_binary_parens_witness :
  "-" <> "^" /\ "-" <> ".." /\
  formatExpression 1 (BinaryExpression "-" (Identifier "a" false) (Identifier "b" false))
    (operand_options "-" "right") (minifier_new module_load_state [])
    = Some ("(a-b)", minifier_new module_load_state []) /\
  exists lt rt st1,
    formatExpression 1 (Identifier "a" false) (operand_options "-" "left")
      (minifier_new module_load_state []) = Some (lt, st1) /\
    formatExpression 1 (Identifier "b" false) (operand_options "-" "right") st1
      = Some (rt, minifier_new module_load_state []) /\
    "(a-b)" = if binary_parens_rule "-" (operand_options "-" "right")
              then "(" +++ binary_parts lt "-" rt +++ ")"
              else binary_parts lt "-" rt.
Proof.
  assert (H1 : "-" <> "^") by discriminate.
  assert (H2 : "-" <> "..") by discriminate.
  assert (H3 : formatExpression 1 (BinaryExpression "-" (Identifier "a" false) (Identifier "b" false))
    (operand_options "-" "right") (minifier_new module_load_state [])
    = Some ("(a-b)", minifier_new module_load_state [])) by reflexivity.
  split; [exact H1|]. split; [exact H2|]. split; [exact H3|].
  exact (formatExpression_binary_parens 1 "-" _ _ _ _ _ _ H1 H2 H3).
Defined.


(** C9 (code): the rename state is module-level (l.102-103) and outlives a
    run: the chunk [local x; y = a] (globals [a], [y]) prints as
    [local b] / [y=a] in a fresh process, but as [local a] / [y=a] after a
    run on [local x], whose [x] was bound to [a]: the local now shadows
    the global [a]. *)
Theorem Minifier_runs_state_leak (fuel : nat) :
  Minifier_runs (10 + fuel) module_load_state
    [mkChunk ["a"; "y"] [LocalStatement (ECons (Identifier "x" true) ENil) ENil;
       AssignmentStatement (ECons (Identifier "y" false) ENil) (ECons (Identifier "a" false) ENil)]]
  = Some ["local b" +++ newline +++ "y=a"] /\
  Minifier_runs (10 + fuel) module_load_state
    [mkChunk [] [LocalStatement (ECons (Identifier "x" true) ENil) ENil];
     mkChunk ["a"; "y"] [LocalStatement (ECons (Identifier "x" true) ENil) ENil;
       AssignmentStatement (ECons (Identifier "y" false) ENil) (ECons (Identifier "a" false) ENil)]]
  = Some ["local a"; "local a" +++ newline +++ "y=a"].
Proof. split; vm_compute; reflexivity. Qed.

(* ------------------------------------------------------------------ *)
(** *** Bundler: association lists *)

Lemma assoc_lookup_None {V : Type} (k : string) (l : list (string * V)) :
  assoc_lookup k l = None <-> ~ In k (map fst l).
Proof.
  induction l as [|[k' v] l IH]; simpl.
  - tauto.
  - destruct (String.eqb_spec k k') as [->|Hne].
    + split; [discriminate | intros H; exfalso; apply H; left; reflexivity].
    + rewrite IH. split; intros H; [intros [->|Hin]; [congruence | tauto] | tauto].
Qed.

Lemma assoc_set_keys {V : Type} (k : string) (v : V) (l : list (string * V)) (y : string) :
  In y (map fst (assoc_set k v l)) <-> y = k \/ In y (map fst l).
Proof.
  induction l as [|[k' v'] l IH]; simpl.
  - intuition congruence.
  - destruct (String.eqb_spec k k') as [->|Hne]; simpl.
    + intuition congruence.
    + rewrite IH. intuition congruence.
Qed.

Lemma assoc_set_nodup {V : Type} (k : string) (v : V) (l : list (string * V)) :
  List.NoDup (map fst l) -> List.NoDup (map fst (assoc_set k v l)).
Proof.
  induction l as [|[k' v'] l IH]; simpl; intros H.
  - constructor; [intros [] | constructor].
  - inversion H as [|? ? Hnin Hnd]; subst.
    destruct (String.eqb_spec k k') as [->|Hne]; simpl.
    + constructor; assumption.
    + constructor; [|apply IH; assumption].
      rewrite assoc_set_keys. intros [->|Hin]; [congruence | contradiction].
Qed.

Lemma assoc_lookup_set_same {V : Type} (k : string) (v : V) (l : list (string * V)) :
  assoc_lookup k (assoc_set k v l) = Some v.
Proof.
  induction l as [|[k' v'] l IH]; simpl.
  - rewrite String.eqb_refl. reflexivity.
  - destruct (String.eqb_spec k k') as [->|Hne]; simpl.
    + rewrite String.eqb_refl. reflexivity.
    + apply String.eqb_neq in Hne. rewrite Hne. exact IH.
Qed.

Lemma filter_key_single {V : Type} (l : list (string * V)) (k : string) :
  List.NoDup (map fst l) -> In k (map fst l) ->
  length (List.filter (fun kv => String.eqb (fst kv) k) l) = 1.
Proof.
  induction l as [|[k' v] l IH]; simpl; intros Hnd Hin.
  - contradiction.
  - inversion Hnd as [|? ? Hnin Hnd']; subst.
    destruct (String.eqb_spec k' k) as [->|Hne]; simpl.
    + f_equal. clear IH Hin Hnd. induction l as [|[k'' v'] l IHl]; simpl; [reflexivity|].
      simpl in Hnin. destruct (String.eqb_spec k'' k) as [->|]; [tauto|].
      inversion Hnd' as [|? ? ? Hnd'']; subst. apply IHl; tauto.
    + destruct Hin as [->|Hin]; [congruence|]. apply IH; assumption.
Qed.

(* ------------------------------------------------------------------ *)
(** *** Bundler: one pass per module in an acyclic run *)

Section SinglePass.

Variable h : Host.
Variable cfg : MinifierConfig.
Variable rank : string -> nat.

(** Every module a module requires has a smaller rank. *)
Hypothesis acyclic : forall name code ast,
  readFile h (module_path cfg name) = Some code -> luaparse h code = Some ast ->
  Forall (fun r => rank r < rank name) (ast_requires ast).

Lemma parseModule_single_pass (fuel : nat) : forall x s sn s',
  parseModule h cfg fuel x s = (inr sn, s') ->
  List.NoDup (passes s) -> List.NoDup (cache_keys s) ->
  (forall y, In y (passes s) -> In y (cache_keys s) \/ rank x < rank y) ->
  In x (cache_keys s') /\ request_ok rank x s s'.
Proof.
  induction fuel as [|fuel IH]; intros x s sn s' E Hnd Hknd Hprog; simpl in E.
  - discriminate.
  - destruct (assoc_lookup x (moduleSourceNode s)) as [res|] eqn:Hc.
    + injection E as <- <-. split.
      * destruct (assoc_lookup_None x (moduleSourceNode s)) as [_ H].
        destruct (in_dec string_dec x (cache_keys s)) as [Hin|Hnin]; [exact Hin|].
        rewrite (H Hnin) in Hc. discriminate.
      * exists []. rewrite app_nil_r.
        refine (conj eq_refl (conj Hnd (conj Hknd (conj (fun y Hy => Hy) (conj _ _))))).
        -- intros y [].
        -- intros y Hy. left. exact Hy.
    + apply assoc_lookup_None in Hc.
      destruct (readFile h (path_join (dir cfg) (resolve_path x))) as [code|] eqn:Hr;
        [|discriminate].
      destruct (luaparse h code) as [ast|] eqn:Hp; [|discriminate].
      destruct (ast_globals ast) as [gs|]; [|discriminate].
      assert (Hreq : Forall (fun r => rank r < rank x) (requested_modules cfg ast)).
      { unfold requested_modules. destruct (moduleLikeLua (mode cfg)); [|constructor].
        exact (acyclic x code ast Hr Hp). }
      (* the required modules, one after the other *)
      assert (Hloop : forall names s1 s2,
        require_all (parseModule h cfg fuel) names s1 = (inr tt, s2) ->
        Forall (fun r => rank r < rank x) names ->
        List.NoDup (passes s1) -> List.NoDup (cache_keys s1) ->
        (forall y, In y (passes s1) -> In y (cache_keys s1) \/ rank x <= rank y) ->
        exists L, passes s2 = (passes s1 ++ L)%list /\ List.NoDup (passes s2) /\
          List.NoDup (cache_keys s2) /\
          (forall y, In y (cache_keys s1) -> In y (cache_keys s2)) /\
          (forall y, In y L -> In y (cache_keys s2) /\ ~ In y (cache_keys s1) /\ rank y < rank x) /\
          (forall y, In y (cache_keys s2) -> In y (cache_keys s1) \/ In y L)).
      { induction names as [|n names IHn]; intros s1 s2 El Hr' Hnd1 Hk1 Hp1; simpl in El.
        - injection El as <-. exists []. rewrite app_nil_r.
          refine (conj eq_refl (conj Hnd1 (conj Hk1 (conj (fun y Hy => Hy) (conj _ _))))).
          + intros y [].
          + intros y Hy. left. exact Hy.
        - inversion Hr' as [|? ? Hn Hrs]; subst.
          destruct (parseModule h cfg fuel n s1) as [[e|sn1] s3] eqn:En; [discriminate|].
          destruct (IH n s1 sn1 s3 En Hnd1 Hk1) as [_ [L1 (HL1 & Hnd3 & Hk3 & Hg3 & HnL1 & Hb3)]].
          { intros y Hy. destruct (Hp1 y Hy); [left; assumption | right; lia]. }
          destruct (IHn s3 s2 El Hrs Hnd3 Hk3) as [L2 (HL2 & Hnd2 & Hk2 & Hg2 & HnL2 & Hb2)].
          { intros y Hy. rewrite HL1 in Hy. apply in_app_or in Hy as [Hy|Hy].
            - destruct (Hp1 y Hy); [left; apply Hg3; assumption | right; assumption].
            - left. apply (HnL1 y Hy). }
          exists (L1 ++ L2)%list.
          refine (conj _ (conj Hnd2 (conj Hk2 (conj _ (conj _ _))))).
          + rewrite HL2, HL1, app_assoc. reflexivity.
          + intros y Hy. apply Hg2, Hg3, Hy.
          + intros y Hy. apply in_app_or in Hy as [Hy|Hy].
            * destruct (HnL1 y Hy) as (Hy1 & Hy2 & Hy3).
              split; [apply Hg2; exact Hy1 | split; [exact Hy2 | lia]].
            * destruct (HnL2 y Hy) as (Hy1 & Hy2 & Hy3).
              split; [exact Hy1 | split; [intros Hy4; apply Hy2, Hg3, Hy4 | lia]].
          + intros y Hy. destruct (Hb2 y Hy) as [Hy3|Hy3].
            * destruct (Hb3 y Hy3) as [Hy1|Hy1]; [left; exact Hy1 | right; apply in_or_app; left; exact Hy1].
            * right. apply in_or_app. right. exact Hy3. }
      destruct (require_all (parseModule h cfg fuel) (requested_modules cfg ast)
                  (record_pass s x gs)) as [[e|[]] s2] eqn:El; [discriminate|].
      injection E as <- <-.
      assert (Hxp : ~ In x (passes s)).
      { intros Hin. destruct (Hprog x Hin); [contradiction | lia]. }
      destruct (Hloop _ _ _ El Hreq) as [L (HL & Hnd2 & Hk2 & Hg2 & HnL & Hb2)].
      { simpl. apply List.NoDup_app; [exact Hnd | constructor; [intros []|constructor] |].
        intros y Hy [<-|[]]. contradiction. }
      { exact Hknd. }
      { intros y Hy. simpl in Hy. apply in_app_or in Hy as [Hy|[<-|[]]].
        - destruct (Hprog y Hy); [left; assumption | right; lia].
        - right. lia. }
      unfold cache_keys in *. simpl in *.
      split; [apply assoc_set_keys; left; reflexivity|].
      exists (x :: L). unfold cache_keys, store_module. simpl.
      refine (conj _ (conj Hnd2 (conj (assoc_set_nodup _ _ _ Hk2) (conj _ (conj _ _))))).
      -- rewrite HL, <- app_assoc. reflexivity.
      -- intros y Hy. apply assoc_set_keys. right. apply Hg2. exact Hy.
      -- intros y [<-|Hy].
        ++ split; [apply assoc_set_keys; left; reflexivity | split; [exact Hc | lia]].
        ++ destruct (HnL y Hy) as (Hy1 & Hy2 & Hy3).
          split; [apply assoc_set_keys; right; exact Hy1 | split; [exact Hy2 | lia]].
      -- intros y Hy. apply assoc_set_keys in Hy as [<-|Hy].
        ++ right. left. reflexivity.
        ++ destruct (Hb2 y Hy) as [Hy1|Hy1]; [left; exact Hy1 | right; right; exact Hy1].
Qed.

End SinglePass.

(* ------------------------------------------------------------------ *)
(** *** Bundler: the shape of the output of [parse()] *)

Lemma sn_toString_cons (l c : option nat) (src : option string) (x : SourceNode) (xs : list SourceNode) :
  sn_toString (SNode l c src (x :: xs)) = sn_toString x +++ sn_toString (SNode l c src xs).
Proof. reflexivity. Qed.

Lemma sn_toString_app (l c : option nat) (src : option string) (xs ys : list SourceNode) :
  sn_toString (SNode l c src (xs ++ ys)%list)
  = sn_toString (SNode l c src xs) +++ sn_toString (SNode l c src ys).
Proof.
  induction xs as [|x xs IH].
  - reflexivity.
  - cbn [app]. rewrite !sn_toString_cons, IH, str_app_assoc. reflexivity.
Qed.

Lemma fold_dispatcher (entry : string) (cache : list (string * SourceNode))
    (l c : option nat) (src : option string) (cs : list SourceNode) :
  fold_left (fun acc kv =>
      if String.eqb (fst kv) entry then acc
      else sn_prepend (dispatcher_branch (fst kv) (snd kv)) acc) cache (SNode l c src cs)
  = SNode l c src (flat_map (fun kv => dispatcher_branch (fst kv) (snd kv))
        (rev (List.filter (fun kv => negb (String.eqb (fst kv) entry)) cache)) ++ cs)%list.
Proof.
  revert cs. induction cache as [|kv cache IH]; intros cs; cbn [fold_left List.filter].
  - reflexivity.
  - destruct (String.eqb (fst kv) entry); cbn [negb].
    + apply IH.
    + cbn [rev sn_prepend]. rewrite IH, flat_map_app, <- app_assoc. cbn [flat_map].
      rewrite app_nil_r. reflexivity.
Qed.

Lemma fold_comments (entry : string) (l : list Comment)
    (ln cl : option nat) (src : option string) (cs : list SourceNode) :
  fold_left (fun acc c => sn_prepend [comment_node entry c; SNStr newline] acc) l (SNode ln cl src cs)
  = SNode ln cl src (flat_map (fun c => [comment_node entry c; SNStr newline]) (rev l) ++ cs)%list.
Proof.
  revert cs. induction l as [|x l IH]; intros cs; cbn [fold_left].
  - reflexivity.
  - cbn [sn_prepend rev]. rewrite IH, flat_map_app, <- app_assoc. reflexivity.
Qed.

Lemma filter_rev_comm {A : Type} (p : A -> bool) (l : list A) :
  List.filter p (rev l) = rev (List.filter p l).
Proof.
  induction l as [|x l IH]; cbn [rev List.filter]; [reflexivity|].
  rewrite List.filter_app, IH. cbn [List.filter]. destruct (p x); cbn [rev app].
  - reflexivity.
  - rewrite app_nil_r. reflexivity.
Qed.

Lemma bundler_parse_shape (h : Host) (cfg : MinifierConfig) (fuel : nat) (sn : SourceNode)
    (st : BundlerState) :
  bundler_parse h cfg fuel minifier_init = (inr sn, st) ->
  exists sn0 st0 code ast,
    parseModule h cfg fuel (entryModule cfg) minifier_init = (inr sn0, st0) /\
    passes st = passes st0 /\ moduleSourceNode st = moduleSourceNode st0 /\
    readFile h (module_path cfg (entryModule cfg)) = Some code /\ luaparse h code = Some ast /\
    sn = SNode None None None
           (pragma_pieces (entryModule cfg) (from_option (fun cs => cs) [] (ast_comments ast))
            ++ dispatcher_pieces cfg (moduleSourceNode st) ++ module_body h cfg (entryModule cfg) ast)%list.
Proof.
  intros E. unfold bundler_parse in E.
  destruct (parseModule h cfg fuel (entryModule cfg) minifier_init) as [[e|sn0] st0] eqn:Ep;
    [discriminate|].
  (* the entry module is read, parsed and stored last *)
  destruct fuel as [|fuel]; [discriminate|].
  pose proof Ep as Ep'. cbn [parseModule assoc_lookup minifier_init moduleSourceNode] in Ep'.
  destruct (readFile h (path_join (dir cfg) (resolve_path (entryModule cfg)))) as [code|] eqn:Hr;
    [|discriminate].
  destruct (luaparse h code) as [ast|] eqn:Hp; [|discriminate].
  destruct (ast_globals ast) as [gs|]; [|discriminate].
  destruct (require_all _ _ _) as [[e|[]] s2]; [discriminate|].
  injection Ep' as <- <-.
  cbn [store_module moduleAST moduleSourceNode] in E.
  rewrite assoc_lookup_set_same in E.
  set (sn1 := if moduleLikeLua (mode cfg) then _ else _) in E.
  assert (Hsn1 : sn1 = SNode None None None
            (dispatcher_pieces cfg (assoc_set (entryModule cfg)
               (SNode None None None (module_body h cfg (entryModule cfg) ast)) (moduleSourceNode s2))
             ++ module_body h cfg (entryModule cfg) ast)%list).
  { unfold sn1, dispatcher_pieces, module_body.
    destruct (moduleLikeLua (mode cfg)); [|reflexivity].
    cbn [sn_prepend]. rewrite fold_dispatcher. cbn [sn_prepend app].
    rewrite <- !app_assoc. reflexivity. }
  exists (SNode None None None (module_body h cfg (entryModule cfg) ast)).
  eexists. exists code, ast.
  destruct (ast_comments ast) as [comments|] eqn:Hcm.
  - injection E as <- <-.
    refine (conj eq_refl (conj eq_refl (conj eq_refl (conj Hr (conj Hp _))))).
    rewrite Hsn1, fold_comments, filter_rev_comm, rev_involutive. cbn [from_option].
    reflexivity.
  - injection E as <- <-.
    refine (conj eq_refl (conj eq_refl (conj eq_refl (conj Hr (conj Hp _))))).
    exact Hsn1.
Qed.

Lemma cli_main_prefix (h : Host) (mode : MinifierMode) (fuel : nat) (pre post : list string)
    (fileName : string) (effs : list CliEffect) (e : BundleError) :
  cli_main h mode fuel pre = (effs, None) ->
  existsSync h fileName = true -> cli_file h mode fuel fileName = inl e ->
  cli_main h mode fuel (pre ++ fileName :: post)%list = (effs, Some e).
Proof.
  revert effs. induction pre as [|f pre IH]; intros effs Hpre Hex Hf; cbn [app cli_main] in *.
  - injection Hpre as <-. rewrite Hex, Hf. reflexivity.
  - destruct (existsSync h f).
    + destruct (cli_file h mode fuel f) as [e'|effs0]; [discriminate|].
      destruct (cli_main h mode fuel pre) as [effs' r] eqn:Er.
      injection Hpre as <- ->. rewrite (IH effs' eq_refl Hex Hf). reflexivity.
    + destruct (cli_main h mode fuel pre) as [effs' r] eqn:Er.
      injection Hpre as <- ->. rewrite (IH effs' eq_refl Hex Hf). reflexivity.
Qed.

(* ------------------------------------------------------------------ *)
(** *** Claims on the bundler and the command line *)

(** C5 (as it holds): when every module requires only modules of smaller
    rank (an acyclic require graph), a bundling run that completes began
    the parse-and-print pass of each module at most once; the modules
    whose pass began are exactly the cached ones, each cached once, and
    the dispatcher is built from that cache, one branch per cached module
    other than the entry. *)
Theorem bundler_parse_single_pass (h : Host) (cfg : MinifierConfig) (rank : string -> nat)
    (acyclic : forall name code ast,
       readFile h (module_path cfg name) = Some code -> luaparse h code = Some ast ->
       Forall (fun r => rank r < rank name) (ast_requires ast))
    (fuel : nat) (sn : SourceNode) (st : BundlerState) :
  bundler_parse h cfg fuel minifier_init = (inr sn, st) ->
  List.NoDup (passes st) /\
  (forall m, In m (passes st) <-> In m (cache_keys st)) /\
  (forall m, In m (passes st) ->
     length (List.filter (fun kv => String.eqb (fst kv) m) (moduleSourceNode st)) = 1) /\
  exists pre body, sn = SNode None None None (pre ++ dispatcher_pieces cfg (moduleSourceNode st) ++ body)%list.
Proof.
  intros E.
  destruct (bundler_parse_shape h cfg fuel sn st E)
    as (sn0 & st0 & code & ast & Ep & Hps & Hms & Hr & Hp & Hsn).
  destruct (parseModule_single_pass h cfg rank acyclic fuel (entryModule cfg) minifier_init sn0 st0 Ep)
    as [_ [L (HL & Hnd & Hk & _ & HnL & Hb)]].
  { constructor. }
  { constructor. }
  { intros y []. }
  unfold cache_keys in *. cbn [passes minifier_init moduleSourceNode map app] in *.
  rewrite Hps, Hms, HL. rewrite HL in Hnd.
  assert (Hiff : forall m, In m L <-> In m (map fst (moduleSourceNode st0))).
  { intros m. split; intros Hm.
    - apply (HnL m Hm).
    - destruct (Hb m Hm) as [[]|Hm']; exact Hm'. }
  refine (conj Hnd (conj Hiff (conj _ _))).
  - intros m Hm. apply filter_key_single; [exact Hk | apply Hiff; exact Hm].
  - rewrite <- Hms. eexists. eexists. exact Hsn.
Qed.

Lemma SourceNode_nested_ind (P : SourceNode -> Prop) :
  (forall s, P (SNStr s)) ->
  (forall l c src cs, Forall P cs -> P (SNode l c src cs)) ->
  forall n, P n.
Proof.
  intros Hs Hn. refine (fix ind n := match n with
    | SNStr s => Hs s
    | SNode l c src cs => Hn l c src cs ((fix go cs : Forall P cs :=
        match cs with [] => @List.Forall_nil _ P | x :: xs => @List.Forall_cons _ P x xs (ind x) (go xs) end) cs)
    end).
Qed.

Lemma sn_subterms_leaves (n : SourceNode) :
  forall t s, In t (sn_subterms n) -> In s (sn_leaves t) -> In s (sn_leaves n).
Proof.
  induction n as [str|l c src cs IH] using SourceNode_nested_ind; intros t s Ht Hs.
  - destruct Ht as [<-|[]]. exact Hs.
  - destruct Ht as [<-|Ht]; [exact Hs|].
    cbn [sn_leaves]. apply in_flat_map in Ht as (x & Hx & Ht).
    apply in_flat_map. exists x. split; [exact Hx|].
    rewrite List.Forall_forall in IH. exact (IH x Hx t s Ht Hs).
Qed.

Lemma comment_free_node (l c : option nat) (src : option string) (cs : list SourceNode) :
  Forall comment_free cs -> comment_free (SNode l c src cs).
Proof.
  intros H s Hs. cbn [sn_leaves] in Hs. apply in_flat_map in Hs as (x & Hx & Hs).
  rewrite List.Forall_forall in H. exact (H x Hx s Hs).
Qed.

Lemma assoc_set_Forall {V : Type} (P : V -> Prop) (k : string) (v : V) (l : list (string * V)) :
  Forall (fun kv => P (snd kv)) l -> P v -> Forall (fun kv => P (snd kv)) (assoc_set k v l).
Proof.
  intros Hl Hv. induction Hl as [|[k' v'] l Hkv Hl IH]; cbn [assoc_set].
  - constructor; [exact Hv | constructor].
  - destruct (String.eqb k k'); constructor; assumption.
Qed.

Lemma parseModule_comment_free (h : Host) (cfg : MinifierConfig) (Hprinter : printer_drops_comments h)
    (fuel : nat) : forall x s r s',
  Forall (fun kv => comment_free (snd kv)) (moduleSourceNode s) ->
  parseModule h cfg fuel x s = (r, s') ->
  Forall (fun kv => comment_free (snd kv)) (moduleSourceNode s') /\
  (forall sn, r = inr sn -> comment_free sn).
Proof.
  induction fuel as [|fuel IH]; intros x s r s' Hs E; cbn [parseModule] in E.
  { injection E as <- <-. split; [exact Hs | intros sn [=]]. }
  destruct (assoc_lookup x (moduleSourceNode s)) as [res|] eqn:Hc.
  { injection E as <- <-. split; [exact Hs|]. intros sn [= <-].
    clear IH. induction (moduleSourceNode s) as [|[k v] l IHl]; cbn [assoc_lookup] in Hc;
      [discriminate|]. inversion Hs as [|? ? Hkv Hl]; subst.
    destruct (String.eqb x k); [injection Hc as <-; exact Hkv | exact (IHl Hl Hc)]. }
  destruct (readFile h _) as [code|];
    [|injection E as <- <-; split; [exact Hs | intros sn [=]]].
  destruct (luaparse h code) as [ast|];
    [|injection E as <- <-; split; [exact Hs | intros sn [=]]].
  destruct (ast_globals ast) as [gs|];
    [|injection E as <- <-; split; [exact Hs | intros sn [=]]].
  assert (Hloop : forall names s1 r1 s2,
    Forall (fun kv => comment_free (snd kv)) (moduleSourceNode s1) ->
    require_all (parseModule h cfg fuel) names s1 = (r1, s2) ->
    Forall (fun kv => comment_free (snd kv)) (moduleSourceNode s2)).
  { induction names as [|n names IHn]; intros s1 r1 s2 Hs1 El; cbn [require_all] in El.
    - injection El as _ <-. exact Hs1.
    - destruct (parseModule h cfg fuel n s1) as [[e|sn1] s3] eqn:En.
      + injection El as _ <-. exact (proj1 (IH _ _ _ _ Hs1 En)).
      + exact (IHn _ _ _ (proj1 (IH _ _ _ _ Hs1 En)) El). }
  destruct (require_all (parseModule h cfg fuel) (requested_modules cfg ast) (record_pass s x gs))
    as [[e|[]] s2] eqn:El.
  - injection E as <- <-. split; [exact (Hloop _ (record_pass s x gs) _ _ Hs El) | intros sn [=]].
  - injection E as <- <-.
    assert (Hnode : comment_free (SNode None None None
              (minifyFile h (resolve_path x) ast (String.eqb (resolve_path x) (entryModule cfg))))).
    { apply comment_free_node. apply Hprinter. }
    split; [|intros sn [= <-]; exact Hnode].
    cbn [store_module moduleSourceNode].
    apply (assoc_set_Forall comment_free); [exact (Hloop _ (record_pass s x gs) _ _ Hs El) | exact Hnode].
Qed.

Lemma comment_node_not_in_free (e : string) (c : Comment) (x : SourceNode) :
  String.prefix "--" (raw c) = true -> comment_free x -> ~ In (comment_node e c) (sn_subterms x).
Proof.
  intros Hc Hx Hin.
  assert (Hraw : In (raw c) (sn_leaves x)).
  { apply (sn_subterms_leaves x (comment_node e c)); [exact Hin | left; reflexivity]. }
  rewrite (Hx _ Hraw) in Hc. discriminate.
Qed.

Lemma output_no_ordinary_comment (cfg : MinifierConfig) (e : string) (comments : list Comment)
    (cache : list (string * SourceNode)) (body : list SourceNode) (c : Comment) :
  Forall (fun kv => comment_free (snd kv)) cache -> Forall comment_free body ->
  is_pragma c = false -> String.prefix "--" (raw c) = true ->
  ~ In (comment_node e c)
      (sn_subterms (SNode None None None (pragma_pieces e comments ++ dispatcher_pieces cfg cache ++ body)%list)).
Proof.
  intros Hcache Hbody Hp Hc [Heq|Hin]; [discriminate|].
  apply in_flat_map in Hin as (x & Hx & Ht).
  apply in_app_or in Hx as [Hx|Hx]; [|apply in_app_or in Hx as [Hx|Hx]].
  - unfold pragma_pieces in Hx. apply in_flat_map in Hx as (c' & Hc' & Hx).
    apply filter_In in Hc' as [_ Hc'].
    destruct Hx as [<-|[<-|[]]].
    + destruct Ht as [Heq|[Heq|[]]]; [|discriminate].
      injection Heq as _ _ Hraw. unfold is_pragma in *. rewrite <- Hraw in Hp. congruence.
    + destruct Ht as [Heq|[]]. discriminate.
  - unfold dispatcher_pieces in Hx. destruct (moduleLikeLua (mode cfg)); [|destruct Hx].
    destruct Hx as [<-|Hx]; [destruct Ht as [Heq|[]]; discriminate|].
    apply in_app_or in Hx as [Hx|[<-|[]]]; [|destruct Ht as [Heq|[]]; discriminate].
    apply in_flat_map in Hx as ([k v] & Hkv & Hx).
    apply in_rev, filter_In in Hkv as [Hkv _].
    unfold dispatcher_branch in Hx. cbn [fst snd] in Hx.
    destruct Hx as [<-|[<-|[<-|[<-|[<-|[]]]]]]; try (destruct Ht as [Heq|[]]; discriminate).
    rewrite List.Forall_forall in Hcache.
    exact (comment_node_not_in_free e c v Hc (Hcache _ Hkv) Ht).
  - rewrite List.Forall_forall in Hbody.
    exact (comment_node_not_in_free e c x Hc (Hbody _ Hx) Ht).
Qed.

(** C6: in the output of a completed bundling run, the comments of the
    entry module that contain [--#] or [[[#] come first, each as a node
    holding its raw text followed by a newline, in their source order; then
    the dispatcher (module-like mode); then the entry module's body.  The
    text therefore starts with the raw pragma comments.  When the body
    printer drops comments, as the spec requires of it, the node of a
    comment without the marker occurs nowhere in the output tree. *)
Theorem bundler_parse_pragma_comments (h : Host) (cfg : MinifierConfig) (fuel : nat)
    (sn : SourceNode) (st : BundlerState) :
  printer_drops_comments h ->
  bundler_parse h cfg fuel minifier_init = (inr sn, st) ->
  exists code ast comments,
    readFile h (module_path cfg (entryModule cfg)) = Some code /\ luaparse h code = Some ast /\
    from_option (fun cs => cs) [] (ast_comments ast) = comments /\
    sn = SNode None None None
           (pragma_pieces (entryModule cfg) comments
            ++ dispatcher_pieces cfg (moduleSourceNode st) ++ module_body h cfg (entryModule cfg) ast)%list /\
    sn_toString sn =
      str_concat (map (fun c => raw c +++ newline) (List.filter is_pragma comments))
      +++ sn_toString (SNode None None None
            (dispatcher_pieces cfg (moduleSourceNode st) ++ module_body h cfg (entryModule cfg) ast)%list) /\
    (forall c, In c comments -> is_pragma c = false -> String.prefix "--" (raw c) = true ->
       ~ In (comment_node (entryModule cfg) c) (sn_subterms sn)).
Proof.
  intros Hprinter E.
  destruct (bundler_parse_shape h cfg fuel sn st E)
    as (sn0 & st0 & code & ast & Ep & _ & Hms & Hr & Hp & Hsn).
  exists code, ast, (from_option (fun cs => cs) [] (ast_comments ast)).
  refine (conj Hr (conj Hp (conj eq_refl (conj Hsn (conj _ _))))).
  - rewrite Hsn, sn_toString_app. f_equal. unfold pragma_pieces.
    induction (List.filter is_pragma (from_option (fun cs => cs) [] (ast_comments ast)))
      as [|c cs IH]; [reflexivity|].
    cbn [flat_map map str_concat app]. rewrite !sn_toString_cons, IH. cbn [sn_toString].
    rewrite !str_app_assoc. simpl. rewrite str_app_nil_r. reflexivity.
  - intros c _ Hc Hdash. rewrite Hsn.
    apply output_no_ordinary_comment; [| |exact Hc | exact Hdash].
    + rewrite Hms.
      exact (proj1 (parseModule_comment_free h cfg Hprinter fuel _ minifier_init _ _
                      (List.Forall_nil _) Ep)).
    + apply Hprinter.
Qed.

(** C8 (as it holds): a missing input path is reported on the error
    stream and the following paths are processed; but an error raised
    while bundling an existing file is not caught, so the run stops
    there: no later path is processed. *)
Theorem cli_main_errors (h : Host) (mode : MinifierMode) (fuel : nat) :
  (forall fileName rest, readFile h fileName = None ->
     cli_main h mode fuel (fileName :: rest)
     = (Stderr ("No such file: " +++ fileName) :: fst (cli_main h mode fuel rest),
        snd (cli_main h mode fuel rest))) /\
  (forall pre fileName post effs e,
     cli_main h mode fuel pre = (effs, None) ->
     existsSync h fileName = true -> cli_file h mode fuel fileName = inl e ->
     cli_main h mode fuel (pre ++ fileName :: post)%list = (effs, Some e)).
Proof.
  split.
  - intros fileName rest Hr. cbn [cli_main]. unfold existsSync at 1. rewrite Hr.
    destruct (cli_main h mode fuel rest). reflexivity.
  - intros pre fileName post effs e. apply cli_main_prefix.
Qed.

(** C5: a cyclic require ([main] requires [a], which requires [main])
    starts the pass of each module again and again, since a module enters
    the cache only when its pass ends; the run ends in a stack overflow. *)
Lemma bundler_parse_cycle_repeats :
  let r := bundler_parse (table_host cycle_files) (minifier_config "main.lua" module_like) 6 minifier_init in
  fst r = inl StackOverflow /\ passes (snd r) = ["main"; "a"; "main"; "a"; "main"; "a"] /\
  ~ List.NoDup (passes (snd r)).
Proof.
  vm_compute. refine (conj eq_refl (conj eq_refl _)).
  intros Hnd. inversion Hnd as [|? ? Hnin _]. apply Hnin. right. left. reflexivity.
Qed.

(** C8: with [missing.lua], [bad.lua] (which has a syntax error) and
    [good.lua], the missing path is reported, the error of [bad.lua] stops
    the run, and [good.lua], which alone would be written, is never
    processed. *)
Lemma cli_main_abort_skips_rest :
  cli_main cli_host plain_mode 10 ["missing.lua"; "bad.lua"; "good.lua"]
  = ([Stderr "No such file: missing.lua"], Some LuaSyntaxError) /\
  existsSync cli_host "good.lua" = true /\
  map (fun eff => match eff with WriteFile p _ => p | WriteSourceMap p _ => p | Stderr m => m end)
    (fst (cli_main cli_host plain_mode 10 ["good.lua"]))
  = ["good.min.lua"; "good.lua.map"].
Proof. vm_compute. repeat split. Qed.

Lemma diamond_acyclic (name code : string) (ast : LuaAST) :
  readFile (table_host diamond_files) (module_path (minifier_config "main.lua" module_like) name) = Some code ->
  luaparse (table_host diamond_files) code = Some ast ->
  Forall (fun r => diamond_rank r < diamond_rank name) (ast_requires ast).
Proof.
  intros Hr Hp. cbv [table_host luaparse diamond_files assoc_lookup fst snd] in Hp.
  assert (Hreq : ast_requires ast = ["util"; "util"] \/ ast_requires ast = []).
  { destruct (String.eqb code "main.lua"); [injection Hp as <-; left; reflexivity|].
    destruct (String.eqb code "util.lua"); [injection Hp as <-; right; reflexivity | discriminate]. }
  unfold diamond_rank at 2. destruct (String.eqb_spec name "util") as [->|Hne].
  - vm_compute in Hr. injection Hr as <-. vm_compute in Hp. injection Hp as <-. constructor.
  - destruct Hreq as [-> | ->]; repeat constructor.
Qed.

Lemma bundler_parse_single_pass_witness :
  let h := table_host diamond_files in
  let cfg := minifier_config "main.lua" module_like in
  let r := bundler_parse h cfg 10 minifier_init in
  r = (inr (run_node r), snd r) /\
  List.NoDup (passes (snd r)) /\
  (forall m, In m (passes (snd r)) <-> In m (cache_keys (snd r))) /\
  (forall m, In m (passes (snd r)) ->
     length (List.filter (fun kv => String.eqb (fst kv) m) (moduleSourceNode (snd r))) = 1) /\
  exists pre body, run_node r = SNode None None None
                     (pre ++ dispatcher_pieces cfg (moduleSourceNode (snd r)) ++ body)%list.
Proof.
  intros h cfg r.
  assert (E : r = (inr (run_node r), snd r)) by (vm_compute; reflexivity).
  split; [exact E|].
  exact (bundler_parse_single_pass h cfg diamond_rank diamond_acyclic 10 _ _ E).
Defined.

Lemma bundler_parse_pragma_comments_witness :
  let h := table_host diamond_files in
  let cfg := minifier_config "main.lua" module_like in
  let r := bundler_parse h cfg 10 minifier_init in
  printer_drops_comments h /\ r = (inr (run_node r), snd r) /\
  exists code ast comments,
    readFile h (module_path cfg (entryModule cfg)) = Some code /\ luaparse h code = Some ast /\
    from_option (fun cs => cs) [] (ast_comments ast) = comments /\
    run_node r = SNode None None None
           (pragma_pieces (entryModule cfg) comments
            ++ dispatcher_pieces cfg (moduleSourceNode (snd r)) ++ module_body h cfg (entryModule cfg) ast)%list /\
    sn_toString (run_node r) =
      str_concat (map (fun c => raw c +++ newline) (List.filter is_pragma comments))
      +++ sn_toString (SNode None None None
            (dispatcher_pieces cfg (moduleSourceNode (snd r)) ++ module_body h cfg (entryModule cfg) ast)%list) /\
    (forall c, In c comments -> is_pragma c = false -> String.prefix "--" (raw c) = true ->
       ~ In (comment_node (entryModule cfg) c) (sn_subterms (run_node r))).
Proof.
  intros h cfg r.
  assert (Hprinter : printer_drops_comments h).
  { intros path ast isEntry. constructor; [|constructor].
    intros s [<-|[]]. reflexivity. }
  assert (E : r = (inr (run_node r), snd r)) by (vm_compute; reflexivity).
  split; [exact Hprinter|]. split; [exact E|].
  exact (bundler_parse_pragma_comments h cfg 10 _ _ Hprinter E).
Defined.

Lemma cli_main_errors_witness :
  let h := table_host cli_files in
  readFile h "missing.lua" = None /\
  cli_main h module_like 10 ["missing.lua"; "good.lua"]
  = (Stderr ("No such file: " +++ "missing.lua") :: fst (cli_main h module_like 10 ["good.lua"]),
     snd (cli_main h module_like 10 ["good.lua"])) /\
  cli_main h module_like 10 ["missing.lua"; "good.lua"]
  = (fst (cli_main h module_like 10 ["missing.lua"; "good.lua"]), None) /\
  existsSync h "bad.lua" = true /\ cli_file h module_like 10 "bad.lua" = inl (NotFound "nothere") /\
  cli_main h module_like 10 (["missing.lua"; "good.lua"] ++ "bad.lua" :: ["good.lua"])%list
  = (fst (cli_main h module_like 10 ["missing.lua"; "good.lua"]), Some (NotFound "nothere")).
Proof.
  intros h.
  assert (H1 : readFile h "missing.lua" = None) by reflexivity.
  assert (H2 : cli_main h module_like 10 ["missing.lua"; "good.lua"]
               = (fst (cli_main h module_like 10 ["missing.lua"; "good.lua"]), None))
    by (vm_compute; reflexivity).
  assert (H3 : existsSync h "bad.lua" = true) by reflexivity.
  assert (H4 : cli_file h module_like 10 "bad.lua" = inl (NotFound "nothere"))
    by (vm_compute; reflexivity).
  refine (conj H1 (conj (proj1 (cli_main_errors h module_like 10) "missing.lua" ["good.lua"] H1)
            (conj H2 (conj H3 (conj H4 _))))).
  exact (proj2 (cli_main_errors h module_like 10) _ "bad.lua" ["good.lua"] _ _ H2 H3 H4).
Defined.


(* ================================================================== *)
(** ** Further properties of the code *)

Lemma ToInt32_small (x : Z) : (0 <= x < 2 ^ 31)%Z -> ToInt32 x = x.
Proof.
  intros H. unfold ToInt32. rewrite Z.mod_small by lia.
  replace (2 ^ 31 <=? x)%Z with false by (symmetry; apply Z.leb_gt; lia). reflexivity.
Qed.

Lemma zeroes_loop_int32_pos (p : positive) : forall (k f : nat) (zero result : string),
  (Z.pos p < 2 ^ 31)%Z -> (Z.pos p < 2 ^ Z.of_nat k)%Z -> (k < f)%nat ->
  zeroes_loop_int32 f (Z.pos p) zero result = Some (zeroes_loop p zero result).
Proof.
  induction p as [p IH|p IH|]; intros k f zero result H31 Hk Hf;
    (destruct f as [|f]; [lia|]); cbn [zeroes_loop_int32 zeroes_loop];
    rewrite ToInt32_small by lia.
  - (* odd: one zero block added, length halved *)
    destruct k as [|k]; [cbn in Hk; lia|].
    replace (Z.pos p~1 =? 0)%Z with false by reflexivity.
    change (Z.land (Z.pos p~1) 1) with 1%Z. change (Z.shiftr (Z.pos p~1) 1) with (Z.pos p).
    cbn [Z.eqb]. apply (IH k); [lia | | lia].
    rewrite Nat2Z.inj_succ, Z.pow_succ_r in Hk by lia. lia.
  - destruct k as [|k]; [cbn in Hk; lia|].
    replace (Z.pos p~0 =? 0)%Z with false by reflexivity.
    change (Z.land (Z.pos p~0) 1) with 0%Z. change (Z.shiftr (Z.pos p~0) 1) with (Z.pos p).
    cbn [Z.eqb]. apply (IH k); [lia | | lia].
    rewrite Nat2Z.inj_succ, Z.pow_succ_r in Hk by lia. lia.
  - destruct f as [|f]; [destruct k; cbn in Hk; lia|]. reflexivity.
Qed.

(** X2: below 2^31 the 32-bit operators of the loop act as on unbounded
    integers: [generateZeroes(length)] ends within 32 iterations with the
    string of [length] zeroes, and the empty string when [length < 1]. *)
Theorem generateZeroes_spec (length : Z) :
  (length < 2 ^ 31)%Z ->
  generateZeroes_int32 32 length = Some (generateZeroes length) /\
  generateZeroes length = zeros (Z.to_nat length).
Proof.
  intros H31. split.
  - unfold generateZeroes_int32, generateZeroes.
    destruct (length <? 1)%Z eqn:H1; [reflexivity|].
    destruct (length =? 1)%Z eqn:H2; [reflexivity|].
    apply Z.ltb_ge in H1. destruct length as [|p|p]; [lia| |lia].
    apply (zeroes_loop_int32_pos p 31); [lia | | lia]. exact H31.
  - destruct length as [|p|p]; [reflexivity| |reflexivity].
    rewrite <- positive_nat_Z at 1. rewrite generateZeroes_zeros. reflexivity.
Qed.

(** X2 at a concrete input. *)
Lemma generateZeroes_spec_witness :
  (1000 < 2 ^ 31)%Z /\
  generateZeroes_int32 32 1000 = Some (generateZeroes 1000) /\
  generateZeroes 1000 = zeros (Z.to_nat 1000).
Proof.
  split; [lia|]. apply (generateZeroes_spec 1000). lia.
Defined.

(** X17: from 2^32 on, the source's loop no longer follows the count: for
    every positive multiple of 2^32, [ToInt32] gives 0 at the first
    iteration and [generateZeroes] returns the empty string. *)
Theorem generateZeroes_int32_wraps (fuel : nat) (k : Z) :
  (0 < k)%Z -> generateZeroes_int32 (S (S fuel)) (k * 2 ^ 32) = Some "".
Proof.
  intros Hk. unfold generateZeroes_int32.
  replace (k * 2 ^ 32 <? 1)%Z with false by (symmetry; apply Z.ltb_ge; lia).
  replace (k * 2 ^ 32 =? 1)%Z with false by (symmetry; apply Z.eqb_neq; lia).
  cbn [zeroes_loop_int32].
  replace (k * 2 ^ 32 =? 0)%Z with false by (symmetry; apply Z.eqb_neq; lia).
  replace (ToInt32 (k * 2 ^ 32)) with 0%Z by (unfold ToInt32; rewrite Z.mod_mul by lia; reflexivity).
  reflexivity.
Qed.

(** X17 at a concrete input. *)
Lemma generateZeroes_int32_wraps_witness :
  (0 < 1)%Z /\ generateZeroes_int32 2 (1 * 2 ^ 32) = Some "".
Proof.
  split; [lia|]. apply (generateZeroes_int32_wraps 0 1). lia.
Defined.

(** X3: [isKeyword] holds exactly on the 22 reserved words of Lua 5.3. *)
Theorem isKeyword_spec (id : string) : isKeyword id = true <-> In id lua_keywords.
Proof.
  split.
  - unfold isKeyword. intros H.
    destruct (String.length id) as [|[|[|[|[|[|[|[|[|n]]]]]]]]]; try discriminate;
      repeat (apply orb_true_iff in H as [H|H]);
      apply String.eqb_eq in H; subst; cbn; tauto.
  - intros H. repeat (destruct H as [<-|H]; [reflexivity|]). destruct H.
Qed.

Lemma assoc_get_in (l : list (string * Z)) (k : string) (v : Z) :
  assoc_get l k = Some v -> In (k, v) l.
Proof.
  induction l as [|[k' v'] l IH]; cbn [assoc_get]; [discriminate|].
  destruct (String.eqb_spec k k') as [->|_]; intros H.
  - injection H as <-. left. reflexivity.
  - right. exact (IH H).
Qed.

Lemma unary_context_lt (bop : string) :
  js_lt (Some 8%Z) (PRECEDENCE bop) = String.eqb bop "^".
Proof.
  destruct (String.eqb_spec bop "^") as [->|Hne]; [reflexivity|].
  unfold PRECEDENCE. destruct (assoc_get PRECEDENCE_table bop) as [v|] eqn:E; [|reflexivity].
  apply assoc_get_in in E. cbn in E.
  repeat (destruct E as [E|E]; [injection E as <- <-; try reflexivity; contradiction|]).
  destruct E.
Qed.

(** X5: a unary [-], [not] or [#] printed as an operand of a binary
    operator [bop] is wrapped in parentheses exactly when [bop] is [^] and
    the operand is not its right-hand side; its argument is printed with
    precedence 8 and no side or parent. *)
Theorem formatExpression_unary_operand_parens (fuel : nat) (operator bop side : string)
  (argument : Expression) (st : MinState) :
  In operator ["-"; "not"; "#"] ->
  formatExpression fuel (UnaryExpression operator argument) (operand_options bop side) st =
  match formatExpression fuel argument (mkOptions (Some 8%Z) None None) st with
  | Some (p2, st') =>
      let core := operator +++ insertSeparator operator p2 +++ p2 in
      Some (if String.eqb bop "^" && negb (String.eqb side "right")
            then "(" +++ core +++ ")" else core, st')
  | None => None
  end.
Proof.
  intros Hop.
  assert (Hp : PRECEDENCE ("unary" +++ operator) = Some 8%Z)
    by (destruct Hop as [<-|[<-|[<-|[]]]]; reflexivity).
  cbn [formatExpression]. rewrite Hp. unfold pm_bind.
  destruct (formatExpression fuel argument (mkOptions (Some 8%Z) None None) st)
    as [[p2 st']|]; [|reflexivity].
  unfold operand_options. cbn [precedence parent direction js_str_eq].
  rewrite unary_context_lt.
  destruct (String.eqb_spec bop "^") as [->|_]; [destruct (String.eqb side "right")|]; reflexivity.
Qed.

(** X5 at a concrete input. *)
Lemma formatExpression_unary_operand_parens_witness :
  formatExpression 1 (UnaryExpression "-" (Identifier "x" false)) (operand_options "^" "left")
    (minifier_new module_load_state []) = Some ("(-x)", minifier_new module_load_state []).
Proof.
  rewrite (formatExpression_unary_operand_parens 1 "-" "^" "left" (Identifier "x" false)
             (minifier_new module_load_state []) (or_introl eq_refl)).
  vm_compute. reflexivity.
Defined.

Lemma next_candidate_nonempty (cur : string) : next_candidate cur <> "".
Proof.
  unfold next_candidate. destruct (advance_loop _ _ _) as [next|] eqn:Ha.
  - destruct (advance_loop_some _ _ next (le_n _) Ha) as (pre & c & post & _ & _ & Hc & ->).
    pose proof (part_index_range c).
    destruct (part_at_spec (part_index c + 1)) as (d & Hd & _); [lia|].
    rewrite Hd. destruct pre; discriminate.
  - rewrite generateZeroes_zeros. exact (proj2 (grow_first_ok _)).
Qed.

(** X6: for an unbound name other than [self], [generateIdentifier]
    walks the candidates [next_candidate] gives from [currentIdentifier],
    skips each one that is a keyword or in use, binds the name to the first
    other one and leaves [currentIdentifier] on it; the in-use set is
    unchanged. *)
Theorem generateIdentifier_first_free (fuel : nat) (name : string) (st st' : MinState) (r : string) :
  name <> "self" -> identifierMap st !! name = None ->
  generateIdentifier fuel name st = Some (r, st') ->
  exists k, r = Nat.iter (S k) next_candidate (currentIdentifier st) /\
    (forall j, j < k ->
       isKeyword (Nat.iter (S j) next_candidate (currentIdentifier st)) = true \/
       (Nat.iter (S j) next_candidate (currentIdentifier st) ∈ identifiersInUse st)) /\
    isKeyword r = false /\ (r ∉ identifiersInUse st) /\
    st' = mkMinState (<[name := r]> (identifierMap st)) (identifiersInUse st) r.
Proof.
  intros Hself. revert st. induction fuel as [|fuel IH]; intros st Hnone H; [discriminate|].
  cbn [generateIdentifier] in H.
  destruct (String.eqb_spec name "self") as [E|_]; [contradiction|].
  rewrite Hnone in H. cbn [js_truthy] in H.
  assert (Hstep :
    ((isKeyword (next_candidate (currentIdentifier st)) = true \/
      (next_candidate (currentIdentifier st) ∈ identifiersInUse st)) /\
     generateIdentifier fuel name (set_current st (next_candidate (currentIdentifier st))) = Some (r, st')) \/
    (isKeyword (next_candidate (currentIdentifier st)) = false /\
     (next_candidate (currentIdentifier st) ∉ identifiersInUse st) /\
     generateIdentifier fuel name
       (map_set (set_current st (next_candidate (currentIdentifier st))) name
          (next_candidate (currentIdentifier st))) = Some (r, st'))).
  { unfold next_candidate. destruct (advance_loop _ _ _) as [next|] eqn:Ha.
    - destruct (isKeyword next || bool_decide _) eqn:Hc.
      + left. split; [|exact H]. apply orb_true_iff in Hc as [Hc|Hc];
          [left; exact Hc | right; exact (bool_decide_eq_true_1 _ Hc)].
      + right. apply orb_false_iff in Hc as [Hk Hu].
        split; [exact Hk|]. split; [exact (bool_decide_eq_false_1 _ Hu) | exact H].
    - destruct (bool_decide _) eqn:Hc.
      + left. split; [right; exact (bool_decide_eq_true_1 _ Hc) | exact H].
      + right. split; [rewrite generateZeroes_zeros; apply grow_not_keyword|].
        split; [exact (bool_decide_eq_false_1 _ Hc) | exact H]. }
  destruct Hstep as [[Hc Hg]|(Hk & Hu & Hg)].
  - destruct (IH (set_current st (next_candidate (currentIdentifier st))) Hnone Hg) as (k & Hr & Hskip & Hk & Hu & Hst).
    exists (S k). split; [rewrite Nat.iter_succ_r; exact Hr|]. split.
    + intros j Hj. destruct j as [|j]; [exact Hc|].
      rewrite Nat.iter_succ_r. apply Hskip. lia.
    + split; [exact Hk|]. split; [exact Hu | exact Hst].
  - exists 0. destruct fuel as [|fuel']; [discriminate|]. cbn [generateIdentifier] in Hg.
    destruct (String.eqb_spec name "self") as [E|_]; [contradiction|].
    cbn [map_set set_current identifierMap] in Hg. rewrite lookup_insert_eq in Hg.
    cbn [js_truthy] in Hg.
    destruct (String.eqb_spec (next_candidate (currentIdentifier st)) "") as [E|_];
      [exact (False_ind _ (next_candidate_nonempty _ E))|].
    cbn [negb default] in Hg. injection Hg as <- <-.
    split; [reflexivity|]. split; [intros j Hj; lia|].
    split; [exact Hk|]. split; [exact Hu | reflexivity].
Qed.

(** X6 at a concrete input. *)
Lemma generateIdentifier_first_free_witness :
  exists k, "b" = Nat.iter (S k) next_candidate "" /\ isKeyword "b" = false.
Proof.
  destruct (generateIdentifier_first_free 10 "x" (minifier_new module_load_state ["a"])
    (snd (default ("", minifier_new module_load_state [])
            (generateIdentifier 10 "x" (minifier_new module_load_state ["a"])))) "b"
    ltac:(discriminate) ltac:(vm_compute; reflexivity) ltac:(vm_compute; reflexivity))
    as (k & Hr & _ & Hk & _).
  exists k. split; [exact Hr | exact Hk].
Defined.

(** X7: for an expression of the kinds modelled here (identifiers,
    literals, unary and binary expressions (logical ones included), calls,
    member and index expressions, table constructors; function literals,
    table calls and string calls are not covered), printing only adds
    bindings to the rename map, and printing it again on any later state
    that keeps those bindings returns the same text and leaves that state
    unchanged. *)
Theorem formatExpression_replay (fuel : nat) (e : Expression) (o : ExpressionOptions)
  (st st' : MinState) (x : string) :
  map_values_nonempty st -> formatExpression fuel e o st = Some (x, st') ->
  map_incl st st' /\
  (forall st'', map_values_nonempty st'' -> map_incl st' st'' ->
     formatExpression fuel e o st'' = Some (x, st'')).
Proof.
  intros Hne H. destruct (pm_grow _ _ _ _ _ _ Hne H) as [Hne' Hi].
  split; [exact Hi|]. intros st'' Hne'' Hi''. exact (pm_replay _ _ _ _ _ _ _ Hne H Hne'' Hi'').
Qed.

(** X7 at a concrete input. *)
Lemma formatExpression_replay_witness :
  let st0 := minifier_new module_load_state [] in
  let st1 := snd (default ("", st0) (formatExpression 10 (Identifier "v" true) default_options st0)) in
  formatExpression 10 (Identifier "v" true) default_options st1 = Some ("a", st1).
Proof.
  intros st0 st1.
  assert (Hne : map_values_nonempty st0).
  { intros k v Hk. unfold st0 in Hk.
    cbn [minifier_new identifierMap module_load_state ms_identifierMap] in Hk.
    rewrite lookup_empty in Hk. discriminate. }
  assert (Heq : formatExpression 10 (Identifier "v" true) default_options st0 = Some ("a", st1))
    by (vm_compute; reflexivity).
  refine (proj2 (formatExpression_replay 10 (Identifier "v" true) default_options st0 st1 "a" Hne Heq)
            st1 _ (map_incl_refl _)).
  exact (proj1 (pm_grow _ _ _ _ _ _ Hne Heq)).
Defined.






(* ------------------------------------------------------------------ *)
(** *** Printer: the in-use set is never changed *)








Lemma assoc_lookup_set_other {V : Type} (k k' : string) (v : V) (l : list (string * V)) :
  k' <> k -> assoc_lookup k' (assoc_set k v l) = assoc_lookup k' l.
Proof.
  intros Hne. induction l as [|[k1 v1] l IH]; cbn [assoc_set assoc_lookup].
  - apply String.eqb_neq in Hne. rewrite Hne. reflexivity.
  - destruct (String.eqb_spec k k1) as [->|Hk]; cbn [assoc_lookup].
    + apply String.eqb_neq in Hne. rewrite Hne. reflexivity.
    + destruct (String.eqb k' k1); [reflexivity | exact IH].
Qed.

(** X9: [parseModule] never removes or replaces a cached fragment, also
    when it fails, and a successful request leaves its result in the cache
    under the module's name, so that any later request for the module
    returns that same fragment and changes nothing. *)
Theorem parseModule_cache_monotone (h : Host) (cfg : MinifierConfig) (fuel : nat) :
  forall x s r s', parseModule h cfg fuel x s = (r, s') ->
  (forall k v, assoc_lookup k (moduleSourceNode s) = Some v ->
               assoc_lookup k (moduleSourceNode s') = Some v) /\
  (forall sn, r = inr sn ->
     assoc_lookup x (moduleSourceNode s') = Some sn /\
     forall fuel', parseModule h cfg (S fuel') x s' = (inr sn, s')).
Proof.
  assert (Hhit : forall x s sn fuel', assoc_lookup x (moduleSourceNode s) = Some sn ->
            parseModule h cfg (S fuel') x s = (inr sn, s)).
  { intros x s sn fuel' Hc. cbn [parseModule]. rewrite Hc. reflexivity. }
  induction fuel as [|fuel IH]; intros x s r s' E; cbn [parseModule] in E.
  { injection E as <- <-. split; [auto | intros sn [=]]. }
  destruct (assoc_lookup x (moduleSourceNode s)) as [res|] eqn:Hc.
  { injection E as <- <-. split; [auto|].
    intros sn [= <-]. split; [exact Hc | intros fuel'; apply Hhit; exact Hc]. }
  destruct (readFile h _) as [code|] eqn:Hr;
    [|injection E as <- <-; split; [auto | intros sn [=]]].
  destruct (luaparse h code) as [ast|] eqn:Hp;
    [|injection E as <- <-; split; [auto | intros sn [=]]].
  destruct (ast_globals ast) as [gs|];
    [|injection E as <- <-; split; [auto | intros sn [=]]].
  assert (Hloop : forall names s1 r1 s2,
    require_all (parseModule h cfg fuel) names s1 = (r1, s2) ->
    forall k v, assoc_lookup k (moduleSourceNode s1) = Some v ->
                assoc_lookup k (moduleSourceNode s2) = Some v).
  { induction names as [|n names IHn]; intros s1 r1 s2 El; cbn [require_all] in El.
    - injection El as _ <-. auto.
    - destruct (parseModule h cfg fuel n s1) as [[e|sn1] s3] eqn:En.
      + injection El as _ <-. exact (proj1 (IH _ _ _ _ En)).
      + intros k v Hk. apply (IHn _ _ _ El). exact (proj1 (IH _ _ _ _ En) k v Hk). }
  destruct (require_all (parseModule h cfg fuel) (requested_modules cfg ast) (record_pass s x gs))
    as [[e|[]] s2] eqn:El.
  - injection E as <- <-. split; [exact (Hloop _ _ _ _ El) | intros sn [=]].
  - injection E as <- <-.
    assert (Hx : assoc_lookup x (moduleSourceNode
                   (store_module s2 x code ast (SNode None None None
                      (minifyFile h (resolve_path x) ast
                         (String.eqb (resolve_path x) (entryModule cfg)))))) =
                 Some (SNode None None None (minifyFile h (resolve_path x) ast
                         (String.eqb (resolve_path x) (entryModule cfg))))).
    { cbn [store_module moduleSourceNode]. apply assoc_lookup_set_same. }
    split.
    + intros k v Hk. cbn [store_module moduleSourceNode].
      destruct (String.eqb_spec k x) as [->|Hkx]; [rewrite Hc in Hk; discriminate|].
      rewrite assoc_lookup_set_other by exact Hkx. apply (Hloop _ _ _ _ El). exact Hk.
    + intros sn [= <-]. split; [exact Hx | intros fuel'; apply Hhit; exact Hx].
Qed.

(** X9 at a concrete input. *)
Lemma parseModule_cache_monotone_witness :
  let h := table_host diamond_files in
  let cfg := minifier_config "main.lua" module_like in
  let r := parseModule h cfg 10 "main" minifier_init in
  assoc_lookup "main" (moduleSourceNode (snd r)) = Some (run_node r) /\
  parseModule h cfg 3 "main" (snd r) = (inr (run_node r), snd r).
Proof.
  intros h cfg r.
  destruct (parseModule_cache_monotone h cfg 10 "main" minifier_init (fst r) (snd r)
              (surjective_pairing _)) as (_ & H2).
  destruct (H2 (run_node r)) as (H3 & H4); [vm_compute; reflexivity|].
  split; [exact H3 | exact (H4 2)].
Defined.

Lemma replace_dots_length (s : string) : String.length (replace_dots s) = String.length s.
Proof. induction s as [|c s IH]; cbn; [reflexivity | rewrite IH; reflexivity]. Qed.

Lemma resolve_path_neq (m : string) : String.eqb (resolve_path m) m = false.
Proof.
  apply String.eqb_neq. intros E. apply (f_equal String.length) in E.
  unfold resolve_path in E. rewrite str_app_length, replace_dots_length in E. cbn in E. lia.
Qed.

(** X10: the entry test of [parseModule] compares the resolved path with
    the module name, which never match ([resolve_path] adds [.lua]): the
    entry module, when not cached, is printed with the entry flag false. *)
Theorem parseModule_entry_not_flagged (h : Host) (cfg : MinifierConfig) (fuel : nat)
  (s s' : BundlerState) (sn : SourceNode) :
  assoc_lookup (entryModule cfg) (moduleSourceNode s) = None ->
  parseModule h cfg fuel (entryModule cfg) s = (inr sn, s') ->
  exists code ast, readFile h (module_path cfg (entryModule cfg)) = Some code /\
    luaparse h code = Some ast /\
    sn = SNode None None None (minifyFile h (resolve_path (entryModule cfg)) ast false).
Proof.
  intros Hc E. destruct fuel as [|fuel]; [discriminate|]. cbn [parseModule] in E.
  rewrite Hc in E. unfold module_path.
  destruct (readFile h _) as [code|] eqn:Hr; [|discriminate].
  destruct (luaparse h code) as [ast|] eqn:Hp; [|discriminate].
  destruct (ast_globals ast); [|discriminate].
  destruct (require_all _ _ _) as [[e|[]] s2]; [discriminate|].
  injection E as <- _. exists code, ast. split; [reflexivity|]. split; [exact Hp|].
  rewrite resolve_path_neq. reflexivity.
Qed.

(** X10 at a concrete input. *)
Lemma parseModule_entry_not_flagged_witness :
  let h := table_host diamond_files in
  let cfg := minifier_config "main.lua" module_like in
  let r := parseModule h cfg 10 "main" minifier_init in
  exists code ast, readFile h (module_path cfg "main") = Some code /\ luaparse h code = Some ast /\
    run_node r = SNode None None None (minifyFile h (resolve_path "main") ast false).
Proof.
  intros h cfg r.
  exact (parseModule_entry_not_flagged h cfg 10 minifier_init (snd r) (run_node r)
           eq_refl ltac:(vm_compute; reflexivity)).
Defined.

Lemma char_free_app (c : ascii) (a b : string) :
  char_free c (a +++ b) = char_free c a && char_free c b.
Proof.
  induction a as [|d a IH]; [reflexivity|].
  rewrite str_app_cons. unfold char_free in *. cbn [list_ascii_of_string forallb].
  rewrite IH, andb_assoc. reflexivity.
Qed.

Lemma last_index_from_free (c : ascii) (s : string) (i : nat) (acc : option nat) :
  char_free c s = true -> last_index_from c s i acc = acc.
Proof.
  revert i acc. induction s as [|d s IH]; intros i acc H; cbn [last_index_from]; [reflexivity|].
  unfold char_free in H. cbn [list_ascii_of_string forallb] in H.
  apply andb_true_iff in H as [H1 H2]. apply negb_true_iff in H1. rewrite H1. exact (IH _ _ H2).
Qed.

Lemma last_index_from_app (c : ascii) (a b : string) (i : nat) (acc : option nat) :
  last_index_from c (a +++ b) i acc =
  last_index_from c b (i + String.length a) (last_index_from c a i acc).
Proof.
  revert i acc. induction a as [|d a IH]; intros i acc.
  - rewrite str_app_nil_l, Nat.add_0_r. reflexivity.
  - rewrite str_app_cons. cbn [last_index_from String.length]. rewrite IH.
    f_equal. lia.
Qed.

Lemma last_index_split (c : ascii) (a b : string) :
  char_free c b = true -> last_index c (a +++ String c b) = Some (String.length a).
Proof.
  intros H. unfold last_index. rewrite last_index_from_app. cbn [last_index_from].
  rewrite Ascii.eqb_refl. apply last_index_from_free. exact H.
Qed.

Lemma substring_app_l (a b : string) : substring 0 (String.length a) (a +++ b) = a.
Proof.
  induction a as [|d a IH]; [destruct b; reflexivity|].
  rewrite str_app_cons. cbn [String.length substring]. rewrite IH. reflexivity.
Qed.

Lemma substring_app_r (a b : string) (n : nat) :
  substring (String.length a) n (a +++ b) = substring 0 n b.
Proof.
  induction a as [|d a IH]; [rewrite str_app_nil_l; reflexivity|].
  rewrite str_app_cons. cbn [String.length substring]. exact IH.
Qed.

Lemma substring_0_ge (n : nat) (s : string) : String.length s <= n -> substring 0 n s = s.
Proof.
  revert n. induction s as [|c s IH]; intros [|n] H; cbn in *; try lia; try reflexivity.
  f_equal. apply IH. lia.
Qed.

Lemma path_parse_join (d n x : string) :
  n <> "" -> char_free "/" n = true -> char_free "/" x = true -> char_free "." x = true ->
  path_parse (path_join d (n +++ "." +++ x)) = mkParsedPath d n ("." +++ x).
Proof.
  intros Hn Hsn Hsx Hdx.
  change ("." +++ x) with (String "." x).
  assert (Hfree : char_free "/" (n +++ String "." x) = true).
  { rewrite char_free_app, Hsn. exact Hsx. }
  assert (Hsplit : (match last_index "/" (path_join d (n +++ String "." x)) with
     | Some i => (substring 0 i (path_join d (n +++ String "." x)),
                  substring (S i) (String.length (path_join d (n +++ String "." x)))
                    (path_join d (n +++ String "." x)))
     | None => ("", path_join d (n +++ String "." x))
     end) = (d, n +++ String "." x)).
  { unfold path_join. destruct (String.eqb_spec d "") as [->|Hd].
    - unfold last_index. rewrite last_index_from_free by exact Hfree. reflexivity.
    - change (d +++ "/" +++ n +++ String "." x) with (d +++ String "/" (n +++ String "." x)).
      rewrite last_index_split by exact Hfree. f_equal.
      + apply substring_app_l.
      + replace (d +++ String "/" (n +++ String "." x))
          with ((d +++ "/") +++ (n +++ String "." x)) by (rewrite str_app_assoc; reflexivity).
        replace (S (String.length d)) with (String.length (d +++ "/"))
          by (rewrite str_app_length; cbn [String.length]; rewrite Nat.add_1_r; reflexivity).
        rewrite substring_app_r. apply substring_0_ge. rewrite !str_app_length. lia. }
  unfold path_parse. rewrite Hsplit.
  rewrite last_index_split by exact Hdx.
  destruct n as [|c n']; [contradiction|].
  cbn [String.length].
  change (S (String.length n')) with (String.length (String c n')).
  rewrite substring_app_l, substring_app_r, substring_0_ge; [reflexivity|].
  rewrite str_app_length. lia.
Qed.

Lemma sn_toString_add (chunk sn : SourceNode) :
  sn_toString (sn_add chunk sn) = sn_toString sn +++ sn_toString chunk.
Proof.
  destruct sn as [s|l c src cs]; cbn [sn_add].
  - cbn [sn_toString]. rewrite str_app_nil_r. reflexivity.
  - rewrite sn_toString_app. cbn [sn_toString]. rewrite str_app_nil_r. reflexivity.
Qed.

Lemma path_format_join (d name ext : string) : path_format d name ext = path_join d (name +++ ext).
Proof. reflexivity. Qed.

(** X11: for an input [d/n.x] (no [/] in [n] or [x], no [.] in [x]), the
    command line bundles entry module [n] in directory [d], writes the
    text to [d/n.min.lua] whatever the extension [x], followed by the
    sourceMappingURL comment, and writes the source map to [d/n.x.map]. *)
Theorem cli_file_output_names (h : Host) (mode : MinifierMode) (fuel : nat) (d n x : string)
  (sn : SourceNode) :
  n <> "" -> char_free "/" n = true -> char_free "/" x = true -> char_free "." x = true ->
  fst (bundler_parse h (mkMinifierConfig d n mode) fuel minifier_init) = inr sn ->
  let fileName := path_join d (n +++ "." +++ x) in
  minifier_config fileName mode = mkMinifierConfig d n mode /\
  cli_file h mode fuel fileName =
    inr [WriteFile (path_join d (n +++ ".min.lua"))
           (sn_toString sn +++ newline +++ "--[[" +++ newline +++ "//# sourceMappingURL="
              +++ (fileName +++ ".map") +++ newline +++ "]]");
         WriteSourceMap (fileName +++ ".map")
           (sn_add (SNStr (newline +++ "--[[" +++ newline +++ "//# sourceMappingURL="
                            +++ (fileName +++ ".map") +++ newline +++ "]]")) sn)].
Proof.
  intros Hn Hsn Hsx Hdx Hb fileName.
  assert (Hp : path_parse fileName = mkParsedPath d n ("." +++ x))
    by exact (path_parse_join d n x Hn Hsn Hsx Hdx).
  assert (Hc : minifier_config fileName mode = mkMinifierConfig d n mode).
  { unfold minifier_config. rewrite Hp. reflexivity. }
  split; [exact Hc|].
  unfold cli_file. rewrite Hc, Hb, Hp. cbn [p_dir p_name p_ext].
  rewrite !path_format_join.
  assert (Hmin : (n +++ ".min") +++ ".lua" = n +++ ".min.lua")
    by (rewrite str_app_assoc; reflexivity).
  assert (Hmap : path_join d (n +++ ("." +++ x) +++ ".map") = fileName +++ ".map").
  { unfold fileName, path_join. destruct (String.eqb d ""); rewrite ?str_app_assoc; reflexivity. }
  rewrite Hmin, Hmap, sn_toString_add. cbn [sn_toString]. reflexivity.
Qed.

(** X11 at a concrete input. *)
Lemma cli_file_output_names_witness :
  cli_file (table_host cli_lib_files) plain_mode 10 "src/main.lua" =
    inr [WriteFile "src/main.min.lua"
           ("return " +++ dq +++ "main.lua" +++ dq +++ newline +++ "--[[" +++ newline
            +++ "//# sourceMappingURL=src/main.lua.map" +++ newline +++ "]]");
         WriteSourceMap "src/main.lua.map"
           (sn_add (SNStr (newline +++ "--[[" +++ newline +++ "//# sourceMappingURL="
                            +++ "src/main.lua.map" +++ newline +++ "]]"))
              (SNode None None None [SNStr ("return " +++ dq +++ "main.lua" +++ dq)]))].
Proof.
  refine (proj2 (cli_file_output_names (table_host cli_lib_files) plain_mode 10 "src" "main" "lua"
                   (SNode None None None [SNStr ("return " +++ dq +++ "main.lua" +++ dq)])
                   ltac:(discriminate) eq_refl eq_refl eq_refl ltac:(vm_compute; reflexivity))).
Defined.

(** X12: the command line does not bundle the input path it was given
    but the entry module's file: it checks that [d/n.x] exists, then the
    bundler reads [d/n'.lua], where [n'] is [n] with each [.] replaced by
    [/]; when that file is missing the run stops with [n is not found]. *)
Theorem cli_main_entry_by_module_name (h : Host) (mode : MinifierMode) (fuel : nat)
  (d n x code : string) (rest : list string) :
  n <> "" -> char_free "/" n = true -> char_free "/" x = true -> char_free "." x = true ->
  readFile h (path_join d (n +++ "." +++ x)) = Some code ->
  readFile h (path_join d (replace_dots n +++ ".lua")) = None ->
  cli_main h mode (S fuel) (path_join d (n +++ "." +++ x) :: rest) = ([], Some (NotFound n)).
Proof.
  intros Hn Hsn Hsx Hdx Hr Hm. cbn [cli_main].
  unfold existsSync at 1. rewrite Hr.
  unfold cli_file. unfold minifier_config.
  rewrite (path_parse_join d n x Hn Hsn Hsx Hdx). cbn [p_dir p_name].
  unfold bundler_parse. cbn [parseModule entryModule dir moduleSourceNode minifier_init assoc_lookup].
  unfold resolve_path. rewrite Hm. reflexivity.
Qed.

(** X12 at a concrete input. *)
Lemma cli_main_entry_by_module_name_witness :
  cli_main (table_host cli_txt_files) plain_mode 10 ["src/main.txt"] = ([], Some (NotFound "main")).
Proof.
  exact (cli_main_entry_by_module_name (table_host cli_txt_files) plain_mode 9 "src" "main" "txt"
           "src/main.txt" [] ltac:(discriminate) eq_refl eq_refl eq_refl eq_refl eq_refl).
Defined.

Lemma joinSnippet_sep (a b : string) (separator : option string) :
  Ast2Lua.joinSnippet a b separator =
  if isNeedSeparator a b
  then a +++ (match separator with
              | Some s => if String.eqb s "" then " " else s
              | None => " "
              end) +++ b
  else a +++ b.
Proof.
  unfold Ast2Lua.joinSnippet, isNeedSeparator. cbv zeta.
  repeat match goal with |- context [if ?c then _ else _] => destruct c end; reflexivity.
Qed.

(** X13: [joinSnippet] of ast2lua.ts puts the separator between [a] and
    [b] exactly when [isNeedSeparator a b] of the part_003 printer holds;
    an absent or empty separator is a space. *)
Theorem joinSnippet_isNeedSeparator (a b : string) (separator : option string) :
  Ast2Lua.joinSnippet a b separator =
  if isNeedSeparator a b
  then a +++ (match separator with
              | Some s => if String.eqb s "" then " " else s
              | None => " "
              end) +++ b
  else a +++ b.
Proof. exact (joinSnippet_sep a b separator). Qed.

Lemma isNeedSeparator_empty_l (b : string) : isNeedSeparator "" b = false.
Proof. reflexivity. Qed.

(** X14: [joinLua] with a non-empty separator joins the texts as
    [formatStatementList] of part_003 joins statements (each one added to
    the result with [addWithSeparator]); on an empty list it throws. *)
Theorem joinLua_statement_list (code : list string) (separator : string) :
  separator <> "" ->
  Ast2Lua.joinLua code (Some separator) =
  match code with
  | [] => None
  | _ :: _ => Some (fold_left (fun r s => addWithSeparator r [s] separator) code "")
  end.
Proof.
  intros Hs. destruct code as [|c cs]; [reflexivity|]. cbn [Ast2Lua.joinLua fold_left].
  assert (Hc : addWithSeparator "" [c] separator = c).
  { unfold addWithSeparator. rewrite isNeedSeparator_empty_l. cbn [str_concat].
    rewrite str_app_nil_l, str_app_nil_r. reflexivity. }
  rewrite Hc. f_equal. clear Hc. revert c.
  induction cs as [|s cs IH]; intros c; [reflexivity|]. cbn [fold_left].
  rewrite <- IH. f_equal.
  rewrite joinSnippet_sep. unfold addWithSeparator. cbn [js_join str_concat].
  rewrite str_app_nil_r. apply String.eqb_neq in Hs. rewrite Hs. reflexivity.
Qed.

(** X14 at a concrete input. *)
Lemma joinLua_statement_list_witness :
  Ast2Lua.joinLua ["local a=1"; "print(a)"; "f()"; "(g)()"] (Some newline) =
  Some ("local a=1" +++ newline +++ "print(a)f()(g)()").
Proof.
  rewrite (joinLua_statement_list ["local a=1"; "print(a)"; "f()"; "(g)()"] newline ltac:(discriminate)).
  vm_compute. reflexivity.
Defined.

(** X15: the ast2lua.ts [generateExpression] wraps a binary or logical
    expression in parentheses exactly by the rule of 4.5, for every
    operator, [^] and [..] included. *)
Theorem generateExpression_binary_parens (inParens : Expression -> bool) (operator : string)
  (l r : Expression) (options : ExpressionOptions) :
  Ast2Lua.generateExpression inParens (BinaryExpression operator l r) options =
  let parts := Ast2Lua.joinSnippet
                 (Ast2Lua.joinSnippet
                    (Ast2Lua.generateExpression inParens l (operand_options operator "left"))
                    operator None)
                 (Ast2Lua.generateExpression inParens r (operand_options operator "right")) None in
  if binary_parens_rule operator options then "(" +++ parts +++ ")" else parts.
Proof. reflexivity. Qed.

Lemma get_app_r (a b : string) (i : nat) :
  String.get (String.length a + i) (a +++ b) = String.get i b.
Proof. induction a as [|c a IH]; [reflexivity|]. rewrite str_app_cons. exact IH. Qed.

Lemma last_char_app (x op : string) : op <> "" -> last_char (x +++ op) = last_char op.
Proof.
  intros Hop. unfold last_char. rewrite str_app_length.
  destruct op as [|c r]; [contradiction|]. cbn [String.length].
  replace (String.length x + S (String.length r) - 1)
    with (String.length x + (S (String.length r) - 1)) by lia.
  apply get_app_r.
Qed.

Lemma char_before_last_app (x op : string) :
  2 <= String.length op -> char_before_last (x +++ op) = char_before_last op.
Proof.
  intros H. unfold char_before_last. rewrite str_app_length.
  destruct (String.length op) as [|[|m]]; [lia|lia|].
  replace (String.length x + S (S m)) with (S (S (String.length x + m))) by lia.
  apply get_app_r.
Qed.

Lemma isNeedSeparator_suffix (x op b : string) :
  op <> "" -> op <> "." -> isNeedSeparator (x +++ op) b = isNeedSeparator op b.
Proof.
  intros Hop Hdot. rewrite !isNeedSeparator_rule_eq. unfold need_separator_rule.
  rewrite (last_char_app x op Hop).
  destruct (last_char op) as [c|] eqn:Hc; [|reflexivity].
  destruct (first_char b) as [y|]; [|reflexivity].
  destruct (Ascii.eqb c ".") eqn:Hd; [|reflexivity].
  rewrite char_before_last_app; [reflexivity|].
  destruct op as [|d [|e r]]; [contradiction| |cbn; lia].
  exfalso. apply Hdot. cbn in Hc. injection Hc as <-.
  apply Ascii.eqb_eq in Hd. subst. reflexivity.
Qed.

Lemma insertSeparator_suffix (x y op b : string) :
  op <> "" -> op <> "." -> insertSeparator (x +++ y +++ op) b = insertSeparator op b.
Proof.
  intros Hop Hdot. unfold insertSeparator.
  rewrite <- str_app_assoc, isNeedSeparator_suffix by assumption. reflexivity.
Qed.

Lemma joinSnippet_insert (a b : string) :
  Ast2Lua.joinSnippet a b None = a +++ insertSeparator a b +++ b.
Proof.
  rewrite joinSnippet_sep. unfold insertSeparator.
  destruct (isNeedSeparator a b); [reflexivity|]. rewrite str_app_nil_l. reflexivity.
Qed.

(** X16: on expressions built from non-local identifiers, literals and
    binary operators other than [^] and [..], the part_003 printer and the
    ast2lua.ts [generateExpression] print the same text, and printing
    leaves the rename state unchanged. *)
Theorem formatExpression_agrees_with_generateExpression (inParens : Expression -> bool)
  (fuel : nat) (e : Expression) (options : ExpressionOptions) (st : MinState) :
  plain_expression e = true ->
  formatExpression fuel e options st = Some (Ast2Lua.generateExpression inParens e options, st).
Proof.
  revert options st. induction e; intros options st H; cbn [plain_expression] in H;
    try discriminate.
  - apply negb_true_iff in H. subst isLocal. reflexivity.
  - reflexivity.
  - apply andb_true_iff in H as [H Hr]. apply andb_true_iff in H as [H Hl].
    apply andb_true_iff in H as [H Hcc]. apply andb_true_iff in H as [H Hpow].
    apply andb_true_iff in H as [Hnil Hdot].
    apply negb_true_iff in Hnil, Hdot, Hpow, Hcc.
    apply String.eqb_neq in Hnil, Hdot.
    cbn [formatExpression Ast2Lua.generateExpression]. unfold pm_bind.
    rewrite (IHe1 _ st Hl), (IHe2 _ st Hr).
    rewrite Hpow, Hcc. cbn [orb].
    rewrite !joinSnippet_insert, insertSeparator_suffix by assumption.
    rewrite !str_app_assoc.
    destruct (_ || _); reflexivity.
Qed.

(** X16 at a concrete input. *)
Lemma formatExpression_agrees_with_generateExpression_witness :
  formatExpression 1 agree_example default_options (minifier_new module_load_state []) =
  Some ("a-(b-2*c)", minifier_new module_load_state []).
Proof.
  rewrite (formatExpression_agrees_with_generateExpression (fun _ => false) 1 agree_example
             default_options (minifier_new module_load_state []) eq_refl).
  vm_compute. reflexivity.
Defined.
